(** * arch/arm/mm/mmap.c: placement of new mappings in a process address space

    A shallow embedding of the ARM [mmap] policy layer: the colour-alignment
    macro, the choice of the mmap layout, the two placement functions
    [arch_get_unmapped_area] and [arch_get_unmapped_area_topdown], and the
    [/dev/mem] page filter.  [unsigned long] values are integers in
    [0, 2^BITS_PER_LONG) with the wrap-around of every operation written
    out. *)

From Stdlib Require Import ZArith List Bool Lia.
Import ListNotations.
Local Open Scope Z_scope.

(** ** Platform constants

    Everything the file takes from kernel headers or from run-time globals
    is a field of the class below, so that no value is built into the
    model. *)

Class platform : Type := {
  BITS_PER_LONG : Z;            (* width of [unsigned long] *)
  PAGE_SHIFT : Z;
  SHMLBA : Z;                   (* cache-colouring granule *)
  TASK_SIZE : Z;
  TASK_UNMAPPED_BASE : Z;
  FIRST_USER_ADDRESS : Z;
  MAP_SHARED : Z;
  MAP_FIXED : Z;
  ENOMEM : Z;
  EINVAL : Z;
  ADDR_COMPAT_LAYOUT : Z;
  PF_RANDOMIZE : Z;
  VM_UNMAPPED_AREA_TOPDOWN : Z;
  cache_is_vipt_aliasing : bool;
  (* run-time globals read by the file *)
  mmap_min_addr : Z;
  mmap_rnd_bits : Z;
  sysctl_legacy_va_layout : Z
}.

(** ** Machine arithmetic on [unsigned long] *)

Section Words.
Context {P : platform}.

Definition wrap (x : Z) : Z := x mod 2 ^ BITS_PER_LONG.

Definition ulong (x : Z) : Prop := 0 <= x < 2 ^ BITS_PER_LONG.

Definition add_ul (a b : Z) : Z := wrap (a + b).
Definition sub_ul (a b : Z) : Z := wrap (a - b).
Definition shl_ul (a s : Z) : Z := wrap (Z.shiftl a s).
Definition not_ul (a : Z) : Z := wrap (Z.lnot a).
Definition neg_ul (a : Z) : Z := wrap (- a).

(** [RLIM_INFINITY] is [~0UL]. *)
Definition RLIM_INFINITY : Z := not_ul 0.

(** [PAGE_SIZE] is [1UL << PAGE_SHIFT], [PAGE_MASK] is [~(PAGE_SIZE-1)]. *)
Definition PAGE_SIZE : Z := shl_ul 1 PAGE_SHIFT.
Definition PAGE_MASK : Z := not_ul (sub_ul PAGE_SIZE 1).

(** Modelled from the spec: the macro [PAGE_ALIGN] of the memory-management
    headers, which are not part of the file.  The spec calls it plain page
    rounding: the address is rounded up to the next page boundary. *)
Definition PAGE_ALIGN (addr : Z) : Z :=
  Z.land (add_ul addr (sub_ul PAGE_SIZE 1)) PAGE_MASK.

(** <<
#define COLOUR_ALIGN(addr,pgoff)		\
	((((addr)+SHMLBA-1)&~(SHMLBA-1)) +	\
	 (((pgoff)<<PAGE_SHIFT) & (SHMLBA-1)))
>> *)
Definition COLOUR_ALIGN (addr pgoff : Z) : Z :=
  add_ul (Z.land (sub_ul (add_ul addr SHMLBA) 1) (not_ul (sub_ul SHMLBA 1)))
         (Z.land (shl_ul pgoff PAGE_SHIFT) (sub_ul SHMLBA 1)).

(** The colour of a page offset: the second summand of [COLOUR_ALIGN]. *)
Definition colour (pgoff : Z) : Z :=
  Z.land (shl_ul pgoff PAGE_SHIFT) (sub_ul SHMLBA 1).

(** <<
#define MIN_GAP (128*1024*1024UL)
#define MAX_GAP ((TASK_SIZE)/6*5)
>> *)
Definition MIN_GAP : Z := wrap (128 * 1024 * 1024).
Definition MAX_GAP : Z := wrap (TASK_SIZE / 6 * 5).

(** Sanity of the word size and of the two alignment units. *)
Record words_ok : Prop := {
  page_shift_ok : 0 < PAGE_SHIFT < BITS_PER_LONG;
  shmlba_pow2 : SHMLBA = 2 ^ Z.log2 SHMLBA;
  shmlba_lt : 0 < SHMLBA < 2 ^ BITS_PER_LONG
}.

End Words.

(** ** The address space *)

(** One mapped region [[vm_start, vm_end)]. *)
Record vm_area_struct : Type := {
  vm_start : Z;
  vm_end : Z
}.

(** The two values [mm->get_unmapped_area] is given in this file. *)
Inductive get_unmapped_area_fn : Type :=
| fn_arch_get_unmapped_area
| fn_arch_get_unmapped_area_topdown.

(** The fields of [struct mm_struct] the file reads or writes; [mm_mmap] is
    the region list in address order. *)
Record mm_struct : Type := {
  mm_mmap : list vm_area_struct;
  mm_mmap_base : Z;
  mm_get_unmapped_area : get_unmapped_area_fn;
  mm_total_vm : Z
}.

(** The fields of [current] the file reads; [rlimit_stack] is what
    [rlimit(RLIMIT_STACK)] returns. *)
Record task_struct : Type := {
  personality : Z;
  task_flags : Z;
  pid : Z;
  rlimit_stack : Z;
  task_mm : mm_struct
}.

(** A file object; only whether [filp] is [NULL] matters here. *)
Inductive file : Type := File (f_ino : Z).

Record vm_unmapped_area_info : Type := {
  info_flags : Z;
  info_length : Z;
  info_low_limit : Z;
  info_high_limit : Z;
  info_align_mask : Z;
  info_align_offset : Z
}.

(** ** Effects: calls of the gap search and diagnostics

    The placement functions are pure but for two observable effects: a call
    of [vm_unmapped_area] and a rate-limited [printk].  Both are logged in
    the order they happen. *)

Inductive event : Type :=
| ev_vm_unmapped_area (info : vm_unmapped_area_info)
| ev_printk (line : Z) (args : list Z).

Definition M (A : Type) : Type := (A * list event)%type.

Definition ret {A : Type} (a : A) : M A := (a, []).

Definition bind {A B : Type} (m : M A) (f : A -> M B) : M B :=
  let (a, t) := m in let (b, t') := f a in (b, t ++ t').

Definition tell (e : event) : M unit := (tt, [e]).

Declare Scope mmap_scope.
Delimit Scope mmap_scope with mmap.
Notation "x <- m ;; k" := (bind m (fun x => k))
  (at level 61, m at next level, right associativity) : mmap_scope.
Notation "m ;; k" := (bind m (fun _ => k))
  (at level 61, right associativity) : mmap_scope.
Local Open Scope mmap_scope.

(** C truth value of an integer. *)
Definition nonzero (x : Z) : bool := negb (x =? 0).

Definition searched (t : list event) : bool :=
  existsb (fun e => match e with ev_vm_unmapped_area _ => true | _ => false end) t.

(** ** The interval index *)

Section Index.
Context {P : platform}.

(** Modelled from the spec: [find_vma] of the core memory manager, which is
    not part of the file: the region, if any, whose range contains or
    follows the address, that is the first region that ends above it. *)
Definition find_vma (mm : mm_struct) (addr : Z) : option vm_area_struct :=
  find (fun v => addr <? vm_end v) (mm_mmap mm).

(** Modelled from the spec: [vm_start_gap] of the memory-management headers,
    which are not part of the file: the start of a region moved down by the
    guard gap, one page in the spec, and never below address 0. *)
Definition vm_start_gap (vma : vm_area_struct) : Z :=
  let s := sub_ul (vm_start vma) PAGE_SIZE in
  if s >? vm_start vma then 0 else s.

(** Modelled from the spec: the gap test of the search, honouring the guard
    gap against the region above.  An interval [[a, a+len)] is free when
    every region ends at or below [a] or has its guard-adjusted start at or
    above [a+len]. *)
Definition gap_free (mm : mm_struct) (a len : Z) : bool :=
  forallb (fun v => (vm_end v <=? a) || (a + len <=? vm_start_gap v))
          (mm_mmap mm).

(** Modelled from the spec: what the search accepts.  The address lies
    inside the limits with the whole length, is a page boundary (a found
    address is a valid page-aligned address), has the colour asked for by
    mask and offset, and is free. *)
Definition gap_fits (mm : mm_struct) (info : vm_unmapped_area_info) (a : Z)
  : bool :=
  if (info_low_limit info <=? a) && (a + info_length info <=? info_high_limit info)
  then (Z.land a (not_ul PAGE_MASK) =? 0)
       && (Z.land (sub_ul a (info_align_offset info)) (info_align_mask info) =? 0)
       && gap_free mm a (info_length info)
  else false.

(** Modelled from the spec: first fit.  Try [a], [a+step], [a+2*step], ...
    and keep the first address that fits. *)
Fixpoint first_fit (fits : Z -> bool) (step : Z) (fuel : nat) (a : Z)
  : option Z :=
  match fuel with
  | O => None
  | S n => if fits a then Some a else first_fit fits step n (a + step)
  end.

(** The page boundary at or below [x]. *)
Definition page_floor (x : Z) : Z := x / PAGE_SIZE * PAGE_SIZE.

(** Modelled from the spec: the ascending search of [vm_unmapped_area]
    (core memory manager, not part of the file): the lowest address at or
    above the low limit at which a gap of the length fits below the high
    limit. *)
Definition lowest_gap (mm : mm_struct) (info : vm_unmapped_area_info)
  : option Z :=
  let start := page_floor (info_low_limit info + PAGE_SIZE - 1) in
  let last := info_high_limit info - info_length info in
  first_fit (gap_fits mm info) PAGE_SIZE
            (Z.to_nat ((last - start) / PAGE_SIZE + 1)) start.

(** Modelled from the spec: the descending search of [vm_unmapped_area]:
    the highest address below the high limit at which a gap of the length
    fits at or above the low limit. *)
Definition highest_gap (mm : mm_struct) (info : vm_unmapped_area_info)
  : option Z :=
  let start := page_floor (info_high_limit info - info_length info) in
  first_fit (gap_fits mm info) (- PAGE_SIZE)
            (Z.to_nat ((start - info_low_limit info) / PAGE_SIZE + 1)) start.

(** Modelled from the spec: [vm_unmapped_area], which is not part of the
    file: the search in the direction the flags ask for; it returns the
    address found, or [-ENOMEM] when nothing fits. *)
Definition vm_unmapped_area (mm : mm_struct) (info : vm_unmapped_area_info)
  : Z :=
  let found :=
    if nonzero (Z.land (info_flags info) VM_UNMAPPED_AREA_TOPDOWN)
    then highest_gap mm info else lowest_gap mm info in
  match found with
  | Some a => a
  | None => neg_ul ENOMEM
  end.

(** A logged call of the search. *)
Definition call_vm_unmapped_area (mm : mm_struct)
    (info : vm_unmapped_area_info) : M Z :=
  tell (ev_vm_unmapped_area info) ;; ret (vm_unmapped_area mm info).

End Index.

(** ** The functions of the file *)

Section Mmap.
Context {P : platform}.

(** [static int mmap_is_legacy(void)] *)
Definition mmap_is_legacy (current : task_struct) : Z :=
  if nonzero (Z.land (personality current) ADDR_COMPAT_LAYOUT) then 1
  else if rlimit_stack current =? RLIM_INFINITY then 1
  else sysctl_legacy_va_layout.

(** The gap left below the stack: the first half of [mmap_base]. *)
Definition stack_gap (current : task_struct) : Z :=
  let gap := rlimit_stack current in
  if gap <? MIN_GAP then MIN_GAP
  else if gap >? MAX_GAP then MAX_GAP
  else gap.

(** [static unsigned long mmap_base(unsigned long rnd)] *)
Definition mmap_base (current : task_struct) (rnd : Z) : Z :=
  let gap := stack_gap current in
  PAGE_ALIGN (sub_ul (sub_ul TASK_SIZE gap) rnd).

(** [do_align]: colour alignment is needed when the caches alias and the
    mapping is backed by a file or shared. *)
Definition do_align_of (filp : option file) (flags : Z) : bool :=
  if cache_is_vipt_aliasing
  then match filp with Some _ => true | None => false end
       || nonzero (Z.land flags MAP_SHARED)
  else false.

(** The test of the [MAP_FIXED] branch:
    [aliasing && flags & MAP_SHARED &&
     (addr - (pgoff << PAGE_SHIFT)) & (SHMLBA - 1)]. *)
Definition fixed_misaligned (addr pgoff flags : Z) : bool :=
  cache_is_vipt_aliasing
  && nonzero (Z.land flags MAP_SHARED)
  && nonzero (Z.land (sub_ul addr (shl_ul pgoff PAGE_SHIFT)) (sub_ul SHMLBA 1)).

(** The hint after [COLOUR_ALIGN] or [PAGE_ALIGN]. *)
Definition align_hint (do_align : bool) (addr pgoff : Z) : Z :=
  if do_align then COLOUR_ALIGN addr pgoff else PAGE_ALIGN addr.

(** The test under which the aligned hint is returned:
    [TASK_SIZE - len >= addr && addr >= mmap_min_addr &&
     (!vma || addr + len <= vm_start_gap(vma))]. *)
Definition hint_ok (mm : mm_struct) (addr len : Z) : bool :=
  let vma := find_vma mm addr in
  (sub_ul TASK_SIZE len >=? addr)
  && (addr >=? mmap_min_addr)
  && match vma with
     | None => true
     | Some v => add_ul addr len <=? vm_start_gap v
     end.

(** [info.align_mask = do_align ? (PAGE_MASK & (SHMLBA - 1)) : 0] *)
Definition align_mask_of (do_align : bool) : Z :=
  if do_align then Z.land PAGE_MASK (sub_ul SHMLBA 1) else 0.

(** The search request of [arch_get_unmapped_area]: <<
	info.flags = 0;
	info.length = len;
	info.low_limit = max(mm->mmap_base, mmap_min_addr);
	info.high_limit = TASK_SIZE;
	info.align_mask = do_align ? (PAGE_MASK & (SHMLBA - 1)) : 0;
	info.align_offset = pgoff << PAGE_SHIFT;
>> *)
Definition bottomup_info (mm : mm_struct) (do_align : bool) (len pgoff : Z)
  : vm_unmapped_area_info :=
  {| info_flags := 0;
     info_length := len;
     info_low_limit := Z.max (mm_mmap_base mm) mmap_min_addr;
     info_high_limit := TASK_SIZE;
     info_align_mask := align_mask_of do_align;
     info_align_offset := shl_ul pgoff PAGE_SHIFT |}.

(** The search request of [arch_get_unmapped_area_topdown]: <<
	info.flags = VM_UNMAPPED_AREA_TOPDOWN;
	info.length = len;
	info.low_limit = max(FIRST_USER_ADDRESS, mmap_min_addr);
	info.high_limit = mm->mmap_base;
	info.align_mask = do_align ? (PAGE_MASK & (SHMLBA - 1)) : 0;
	info.align_offset = pgoff << PAGE_SHIFT;
>> *)
Definition topdown_info (mm : mm_struct) (do_align : bool) (len pgoff : Z)
  : vm_unmapped_area_info :=
  {| info_flags := VM_UNMAPPED_AREA_TOPDOWN;
     info_length := len;
     info_low_limit := Z.max FIRST_USER_ADDRESS mmap_min_addr;
     info_high_limit := mm_mmap_base mm;
     info_align_mask := align_mask_of do_align;
     info_align_offset := shl_ul pgoff PAGE_SHIFT |}.

(** The request after the three assignments of the fall-back: <<
	info.flags = 0;
	info.low_limit = mm->mmap_base;
	info.high_limit = TASK_SIZE;
>> *)
Definition fallback_info (mm : mm_struct) (info : vm_unmapped_area_info)
  : vm_unmapped_area_info :=
  {| info_flags := 0;
     info_length := info_length info;
     info_low_limit := mm_mmap_base mm;
     info_high_limit := TASK_SIZE;
     info_align_mask := info_align_mask info;
     info_align_offset := info_align_offset info |}.

(** The message printed when the length exceeds the address space; [line]
    is the value of [__LINE__], which tells the two functions apart. *)
Definition printk_len (line : Z) (current : task_struct) (len addr : Z)
  : event :=
  ev_printk line [len; TASK_SIZE; mmap_min_addr; pid current;
                  mm_total_vm (task_mm current); addr].

(** The message printed when the search found nothing. *)
Definition printk_nomem (line : Z) (current : task_struct)
    (info : vm_unmapped_area_info) : event :=
  ev_printk line [pid current; mm_total_vm (task_mm current);
                  info_flags info; info_length info; info_low_limit info;
                  info_high_limit info; info_align_mask info;
                  info_align_offset info].

(** [if (__ratelimit(&mmap_rs)) printk(...)]: [ratelimit] is the answer of
    [__ratelimit] at this call. *)
Definition ratelimited (ratelimit : bool) (e : event) : M unit :=
  if ratelimit then tell e else ret tt.

(** [unsigned long arch_get_unmapped_area(struct file *filp,
      unsigned long addr, unsigned long len, unsigned long pgoff,
      unsigned long flags)] *)
Definition arch_get_unmapped_area (current : task_struct) (ratelimit : bool)
    (filp : option file) (addr len pgoff flags : Z) : M Z :=
  let mm := task_mm current in
  let do_align := do_align_of filp flags in
  if nonzero (Z.land flags MAP_FIXED) then
    if fixed_misaligned addr pgoff flags then ret (neg_ul EINVAL)
    else ret addr
  else if len >? sub_ul TASK_SIZE mmap_min_addr then
    ratelimited ratelimit (printk_len 89 current len addr) ;;
    ret (neg_ul ENOMEM)
  else
    let hint := align_hint do_align addr pgoff in
    if nonzero addr && hint_ok mm hint len then ret hint
    else
      let info := bottomup_info mm do_align len pgoff in
      addr <- call_vm_unmapped_area mm info ;;
      (if addr =? neg_ul ENOMEM
       then ratelimited ratelimit (printk_nomem 120 current info)
       else ret tt) ;;
      ret addr.

(** [unsigned long arch_get_unmapped_area_topdown(struct file *filp,
      const unsigned long addr0, const unsigned long len,
      const unsigned long pgoff, const unsigned long flags)] *)
Definition arch_get_unmapped_area_topdown (current : task_struct)
    (ratelimit : bool) (filp : option file) (addr0 len pgoff flags : Z)
  : M Z :=
  let mm := task_mm current in
  let addr := addr0 in
  let do_align := do_align_of filp flags in
  if len >? sub_ul TASK_SIZE mmap_min_addr then
    ratelimited ratelimit (printk_len 156 current len addr) ;;
    ret (neg_ul ENOMEM)
  else if nonzero (Z.land flags MAP_FIXED) then
    if fixed_misaligned addr pgoff flags then ret (neg_ul EINVAL)
    else ret addr
  else
    let hint := align_hint do_align addr pgoff in
    if nonzero addr && hint_ok mm hint len then ret hint
    else
      let info := topdown_info mm do_align len pgoff in
      addr <- call_vm_unmapped_area mm info ;;
      r <- (if nonzero (Z.land addr (not_ul PAGE_MASK)) then
              (* VM_BUG_ON(addr != -ENOMEM): holds of every result of the
                 search, see [search_failed_iff] *)
              let info' := fallback_info mm info in
              addr <- call_vm_unmapped_area mm info' ;;
              ret (addr, info')
            else ret (addr, info)) ;;
      (if fst r =? neg_ul ENOMEM
       then ratelimited ratelimit (printk_nomem 208 current (snd r))
       else ret tt) ;;
      ret (fst r).

(** [unsigned long arch_mmap_rnd(void)]; [random] is the value drawn by
    [get_random_int()]. *)
Definition arch_mmap_rnd (random : Z) : Z :=
  let rnd := Z.land random (Z.shiftl 1 mmap_rnd_bits - 1) in
  shl_ul rnd PAGE_SHIFT.

(** [void arch_pick_mmap_layout(struct mm_struct *mm)]: the new value of
    [*mm]. *)
Definition arch_pick_mmap_layout (current : task_struct) (random : Z)
    (mm : mm_struct) : mm_struct :=
  let random_factor :=
    if nonzero (Z.land (task_flags current) PF_RANDOMIZE)
    then arch_mmap_rnd random else 0 in
  if nonzero (mmap_is_legacy current) then
    {| mm_mmap := mm_mmap mm;
       mm_mmap_base := add_ul TASK_UNMAPPED_BASE random_factor;
       mm_get_unmapped_area := fn_arch_get_unmapped_area;
       mm_total_vm := mm_total_vm mm |}
  else
    {| mm_mmap := mm_mmap mm;
       mm_mmap_base := mmap_base current random_factor;
       mm_get_unmapped_area := fn_arch_get_unmapped_area_topdown;
       mm_total_vm := mm_total_vm mm |}.

End Mmap.

(** ** The [/dev/mem] filter (under [CONFIG_STRICT_DEVMEM]) *)

Section Devmem.
Context {P : platform}.

(** The two predicates of the resource tree and of the memory map, which
    the file only calls. *)
Variable iomem_is_exclusive : Z -> bool.
Variable page_is_ram : Z -> bool.

(** [int devmem_is_allowed(unsigned long pfn)] *)
Definition devmem_is_allowed (pfn : Z) : Z :=
  if iomem_is_exclusive (shl_ul pfn PAGE_SHIFT) then 0
  else if negb (page_is_ram pfn) then 1
  else 0.

End Devmem.

(** ** Notions used in the statements *)

Section Notions.
Context {P : platform}.

Definition page_aligned (a : Z) : Prop := a mod PAGE_SIZE = 0.

(** [addr] has the colour of page offset [pgoff]. *)
Definition congruent_colour (addr pgoff : Z) : Prop :=
  addr mod SHMLBA = (pgoff * PAGE_SIZE) mod SHMLBA.

(** The run-time floor lies inside the task's address range, which is
    inside the word. *)
Definition limits_ok : Prop :=
  0 <= mmap_min_addr <= TASK_SIZE /\ TASK_SIZE < 2 ^ BITS_PER_LONG.

Fixpoint sorted_by_start (l : list vm_area_struct) : bool :=
  match l with
  | [] => true
  | a :: t =>
      match t with
      | [] => true
      | b :: _ => (vm_start a <=? vm_start b) && sorted_by_start t
      end
  end.

(** The region list of a well-formed address space: every bound is a word
    and the regions are in the order of their starts. *)
Definition mm_ok (mm : mm_struct) : bool :=
  forallb (fun v => (0 <=? vm_start v) && (vm_start v <? 2 ^ BITS_PER_LONG)
                    && (0 <=? vm_end v) && (vm_end v <? 2 ^ BITS_PER_LONG))
          (mm_mmap mm)
  && sorted_by_start (mm_mmap mm).

(** What the spec asks of a placement [a] of [len] bytes: a page boundary
    inside [[mmap_min_addr, TASK_SIZE - len]], disjoint from every region,
    and ending at or below the guard-adjusted start of every region that
    ends above [a]. *)
Definition placed_ok (mm : mm_struct) (len a : Z) : Prop :=
  page_aligned a /\
  mmap_min_addr <= a /\
  a + len <= TASK_SIZE /\
  (forall v, In v (mm_mmap mm) -> vm_end v <= a \/ a + len <= vm_start v) /\
  (forall v, In v (mm_mmap mm) -> vm_end v <= a \/ a + len <= vm_start_gap v).

(** Every address of [[lo, hi)] lies inside some region. *)
Definition occupied (mm : mm_struct) (lo hi : Z) : Prop :=
  forall x, lo <= x < hi ->
            exists v, In v (mm_mmap mm) /\ vm_start v <= x < vm_end v.

End Notions.

(** ** A 32-bit ARM configuration

    3G/1G split, 4 KiB pages, four page colours, aliasing VIPT caches. *)

Definition arm : platform := {|
  BITS_PER_LONG := 32;
  PAGE_SHIFT := 12;
  SHMLBA := 16384;
  TASK_SIZE := 0xbf000000;
  TASK_UNMAPPED_BASE := 0x40000000;
  FIRST_USER_ADDRESS := 0x2000;
  MAP_SHARED := 0x01;
  MAP_FIXED := 0x10;
  ENOMEM := 12;
  EINVAL := 22;
  ADDR_COMPAT_LAYOUT := 0x0200000;
  PF_RANDOMIZE := 0x00400000;
  VM_UNMAPPED_AREA_TOPDOWN := 1;
  cache_is_vipt_aliasing := true;
  mmap_min_addr := 0x1000;
  mmap_rnd_bits := 8;
  sysctl_legacy_va_layout := 0
|}.

(** The configuration of the two scenarios of the spec: an address range of
    1 GiB, no aliasing caches, and the floor given. *)
Definition scenario (min_addr : Z) : platform := {|
  BITS_PER_LONG := 32;
  PAGE_SHIFT := 12;
  SHMLBA := 16384;
  TASK_SIZE := 0x40000000;
  TASK_UNMAPPED_BASE := 0x15000000;
  FIRST_USER_ADDRESS := 0x2000;
  MAP_SHARED := 0x01;
  MAP_FIXED := 0x10;
  ENOMEM := 12;
  EINVAL := 22;
  ADDR_COMPAT_LAYOUT := 0x0200000;
  PF_RANDOMIZE := 0x00400000;
  VM_UNMAPPED_AREA_TOPDOWN := 1;
  cache_is_vipt_aliasing := false;
  mmap_min_addr := min_addr;
  mmap_rnd_bits := 8;
  sysctl_legacy_va_layout := 0
|}.

(** First scenario: one region [[0x10000000, 0x10001000)], bottom-up from
    0. *)
Definition mm_scenario_up : mm_struct :=
  {| mm_mmap := [ {| vm_start := 0x10000000; vm_end := 0x10001000 |} ];
     mm_mmap_base := 0;
     mm_get_unmapped_area := fn_arch_get_unmapped_area;
     mm_total_vm := 1 |}.

(** Second scenario: a region [[0x2f000000, 0x30000000)] that abuts the
    base [0x30000000]. *)
Definition mm_scenario_down : mm_struct :=
  {| mm_mmap := [ {| vm_start := 0x2f000000; vm_end := 0x30000000 |} ];
     mm_mmap_base := 0x30000000;
     mm_get_unmapped_area := fn_arch_get_unmapped_area_topdown;
     mm_total_vm := 4096 |}.

(** Address spaces and tasks used in the examples. *)

(** A two-page mapping in the middle of the address range. *)
Definition lib_vma : vm_area_struct :=
  {| vm_start := 0x10000000; vm_end := 0x10002000 |}.

(** A legacy (bottom-up) address space holding that mapping. *)
Definition mm_legacy : mm_struct :=
  {| mm_mmap := [lib_vma];
     mm_mmap_base := 0x40000000;
     mm_get_unmapped_area := fn_arch_get_unmapped_area;
     mm_total_vm := 2 |}.

(** A top-down address space with the same mapping; the base leaves the
    least gap of 128 MiB below [TASK_SIZE]. *)
Definition mm_topdown : mm_struct :=
  {| mm_mmap := [lib_vma];
     mm_mmap_base := 0xb7000000;
     mm_get_unmapped_area := fn_arch_get_unmapped_area_topdown;
     mm_total_vm := 2 |}.

(** A top-down address space whose range below the base is one mapping. *)
Definition mm_crowded : mm_struct :=
  {| mm_mmap := [ {| vm_start := 0x1000; vm_end := 0x20000 |} ];
     mm_mmap_base := 0x20000;
     mm_get_unmapped_area := fn_arch_get_unmapped_area_topdown;
     mm_total_vm := 31 |}.

(** A task whose stack limit, 2.5 GiB, is above [MAX_GAP]. *)
Definition task_big_stack : task_struct :=
  {| personality := 0;
     task_flags := 0;
     pid := 1;
     rlimit_stack := 0xa0000000;
     task_mm := mm_topdown |}.

Definition task_of (mm : mm_struct) : task_struct :=
  {| personality := 0;
     task_flags := 0;
     pid := 1;
     rlimit_stack := 0x800000;
     task_mm := mm |}.

(** ** The physical range checks of [/dev/mem] *)

Section Phys.
Context {P : platform}.

(** What the two checks take from the platform: the width of
    [phys_addr_t], [PHYS_OFFSET], [PHYS_MASK], and the physical address of
    the last byte of low memory, [__pa(high_memory - 1)]. *)
Variable PHYS_ADDR_BITS : Z.
Variable PHYS_OFFSET : Z.
Variable PHYS_MASK : Z.
Variable pa_high_memory_last : Z.

(** Arithmetic on [phys_addr_t]. *)
Definition phys_wrap (x : Z) : Z := x mod 2 ^ PHYS_ADDR_BITS.

(** [int valid_phys_addr_range(phys_addr_t addr, size_t size)] *)
Definition valid_phys_addr_range (addr size : Z) : Z :=
  if addr <? PHYS_OFFSET then 0
  else if phys_wrap (addr + size) >? phys_wrap (pa_high_memory_last + 1) then 0
  else 1.

(** [int valid_mmap_phys_addr_range(unsigned long pfn, size_t size)]: the
    sum is an [unsigned long], the bound has the type of [PHYS_MASK]. *)
Definition valid_mmap_phys_addr_range (pfn size : Z) : Z :=
  if add_ul pfn (Z.shiftr size PAGE_SHIFT)
     <=? phys_wrap (1 + Z.shiftr PHYS_MASK PAGE_SHIFT)
  then 1 else 0.

End Phys.

(** ** Reading a log, and calling through [mm->get_unmapped_area] *)

(** The requests of the searches of a log, in order. *)
Definition search_log (t : list event) : list vm_unmapped_area_info :=
  flat_map (fun e => match e with
                     | ev_vm_unmapped_area info => [info]
                     | ev_printk _ _ => []
                     end) t.

(** The messages of a log, in order. *)
Definition printk_log (t : list event) : list event :=
  filter (fun e => match e with
                   | ev_vm_unmapped_area _ => false
                   | ev_printk _ _ => true
                   end) t.

(** [current] with another address space. *)
Definition with_mm (current : task_struct) (mm : mm_struct) : task_struct :=
  {| personality := personality current;
     task_flags := task_flags current;
     pid := pid current;
     rlimit_stack := rlimit_stack current;
     task_mm := mm |}.

(** The call [current->mm->get_unmapped_area(filp, addr, len, pgoff,
    flags)] for the two functions this file installs. *)
Definition call_get_unmapped_area {P : platform} (current : task_struct)
    (ratelimit : bool) (filp : option file) (addr len pgoff flags : Z) : M Z :=
  match mm_get_unmapped_area (task_mm current) with
  | fn_arch_get_unmapped_area =>
      arch_get_unmapped_area current ratelimit filp addr len pgoff flags
  | fn_arch_get_unmapped_area_topdown =>
      arch_get_unmapped_area_topdown current ratelimit filp addr len pgoff flags
  end.

(** What the code after a search adds to the log: the message of line
    [line] when the search returned [-ENOMEM] and the rate limit grants
    it. *)
Definition nomem_report {P : platform} (ratelimit : bool) (line : Z)
    (current : task_struct) (r : Z) (info : vm_unmapped_area_info)
  : list event :=
  if r =? neg_ul ENOMEM
  then (if ratelimit then [printk_nomem line current info] else [])
  else [].

(** A task that asked for address randomization. *)
Definition task_randomized : task_struct :=
  {| personality := 0;
     task_flags := 0x00400000;
     pid := 7;
     rlimit_stack := 0x800000;
     task_mm := mm_legacy |}.

(** The same task with an unlimited stack. *)
Definition task_unlimited_stack : task_struct :=
  {| personality := 0;
     task_flags := 0x00400000;
     pid := 7;
     rlimit_stack := 0xffffffff;
     task_mm := mm_legacy |}.

(** * Facts *)

(** ** Words, masks and the two alignment macros *)

Section WordFacts.
Context {P : platform}.
Hypothesis Hok : words_ok.

Lemma word_bits_pos : 0 < BITS_PER_LONG.
Proof. destruct Hok as [H _ _]. lia. Qed.

Lemma word_mod_pos : 0 < 2 ^ BITS_PER_LONG.
Proof. apply Z.pow_pos_nonneg; [lia | pose proof word_bits_pos; lia]. Qed.

Lemma wrap_range (x : Z) : 0 <= wrap x < 2 ^ BITS_PER_LONG.
Proof. unfold wrap. apply Z.mod_pos_bound, word_mod_pos. Qed.

Lemma wrap_ulong (x : Z) : ulong (wrap x).
Proof. apply wrap_range. Qed.

Lemma wrap_small (x : Z) : ulong x -> wrap x = x.
Proof. intros H. unfold wrap. apply Z.mod_small, H. Qed.

Lemma wrap_ones (x : Z) : wrap x = Z.land x (Z.ones BITS_PER_LONG).
Proof.
  unfold wrap. rewrite Z.land_ones; [reflexivity | pose proof word_bits_pos; lia].
Qed.

Lemma pow2_le_word (k : Z) :
  0 <= k < BITS_PER_LONG -> 0 < 2 ^ k /\ 2 * 2 ^ k <= 2 ^ BITS_PER_LONG.
Proof.
  intros Hk. split; [apply Z.pow_pos_nonneg; lia |].
  replace (2 * 2 ^ k) with (2 ^ (k + 1)) by (rewrite Z.pow_add_r; lia).
  apply Z.pow_le_mono_r; lia.
Qed.

(** [2^k - 1] as a word is the mask of the low [k] bits. *)
Lemma sub_ul_pow2_1 (k : Z) :
  0 <= k < BITS_PER_LONG -> sub_ul (2 ^ k) 1 = Z.ones k.
Proof.
  intros Hk. destruct (pow2_le_word k Hk) as [Hp Hle].
  unfold sub_ul. rewrite wrap_small; [| unfold ulong; lia].
  rewrite Z.ones_equiv. lia.
Qed.

(** Clearing the low [k] bits of a word rounds it down to a multiple of
    [2^k]. *)
Lemma land_not_ul_ones (x k : Z) :
  ulong x -> 0 <= k ->
  Z.land x (not_ul (Z.ones k)) = x - x mod 2 ^ k.
Proof.
  intros Hx Hk. unfold not_ul. rewrite wrap_ones.
  rewrite Z.land_assoc, (Z.land_comm x), <- Z.land_assoc.
  rewrite <- wrap_ones, (wrap_small x Hx).
  rewrite Z.land_comm, <- Z.ldiff_land, Z.ldiff_ones_r by assumption.
  rewrite Z.shiftr_div_pow2, Z.shiftl_mul_pow2 by assumption.
  assert (0 < 2 ^ k) by (apply Z.pow_pos_nonneg; lia).
  pose proof (Z.div_mod x (2 ^ k)). lia.
Qed.

Lemma land_ul_ones (x k : Z) : 0 <= k -> Z.land x (Z.ones k) = x mod 2 ^ k.
Proof. intros. apply Z.land_ones; assumption. Qed.

Lemma PAGE_SIZE_eq : PAGE_SIZE = 2 ^ PAGE_SHIFT.
Proof.
  destruct Hok as [Hs _ _]. unfold PAGE_SIZE, shl_ul.
  rewrite Z.shiftl_mul_pow2, Z.mul_1_l by lia.
  destruct (pow2_le_word PAGE_SHIFT) as [Hp Hle]; [lia |].
  apply wrap_small. unfold ulong. lia.
Qed.

Lemma PAGE_SIZE_pos : 0 < PAGE_SIZE.
Proof.
  rewrite PAGE_SIZE_eq. destruct Hok as [Hs _ _].
  apply Z.pow_pos_nonneg; lia.
Qed.

Lemma PAGE_SIZE_lt_word : 2 * PAGE_SIZE <= 2 ^ BITS_PER_LONG.
Proof.
  rewrite PAGE_SIZE_eq. destruct Hok as [Hs _ _].
  apply pow2_le_word. lia.
Qed.

Lemma page_low_bits : sub_ul PAGE_SIZE 1 = Z.ones PAGE_SHIFT.
Proof.
  rewrite PAGE_SIZE_eq. destruct Hok as [Hs _ _].
  apply sub_ul_pow2_1. lia.
Qed.

(** [~PAGE_MASK] is the mask of the offset inside a page. *)
Lemma not_PAGE_MASK : not_ul PAGE_MASK = Z.ones PAGE_SHIFT.
Proof.
  unfold PAGE_MASK. rewrite page_low_bits.
  destruct Hok as [Hs _ _].
  apply Z.bits_inj'. intros i Hi.
  unfold not_ul. rewrite !wrap_ones.
  rewrite Z.land_spec, Z.lnot_spec, Z.land_spec, Z.lnot_spec by assumption.
  destruct (Z.ltb_spec i PAGE_SHIFT) as [Hlt | Hge].
  - rewrite !Z.ones_spec_low by lia. reflexivity.
  - rewrite (Z.ones_spec_high PAGE_SHIFT) by lia.
    destruct (Z.ltb_spec i BITS_PER_LONG).
    + rewrite Z.ones_spec_low by lia. reflexivity.
    + rewrite Z.ones_spec_high by lia. reflexivity.
Qed.

(** The page-boundary test [addr & ~PAGE_MASK]. *)
Lemma page_offset_bits (a : Z) :
  Z.land a (not_ul PAGE_MASK) = a mod PAGE_SIZE.
Proof.
  rewrite not_PAGE_MASK, PAGE_SIZE_eq. destruct Hok as [Hs _ _].
  apply land_ul_ones. lia.
Qed.

Lemma PAGE_ALIGN_eq (a : Z) :
  PAGE_ALIGN a =
  wrap (a + (PAGE_SIZE - 1)) - wrap (a + (PAGE_SIZE - 1)) mod PAGE_SIZE.
Proof.
  unfold PAGE_ALIGN, PAGE_MASK, add_ul. rewrite page_low_bits.
  destruct Hok as [Hs _ _].
  rewrite land_not_ul_ones by (try apply wrap_ulong; lia).
  rewrite <- PAGE_SIZE_eq.
  replace (Z.ones PAGE_SHIFT) with (PAGE_SIZE - 1)
    by (rewrite PAGE_SIZE_eq, Z.ones_equiv; lia).
  reflexivity.
Qed.

Lemma PAGE_ALIGN_aligned (a : Z) : PAGE_ALIGN a mod PAGE_SIZE = 0.
Proof.
  rewrite PAGE_ALIGN_eq. pose proof PAGE_SIZE_pos.
  rewrite Zminus_mod, Z.mod_mod, Z.sub_diag by lia. apply Z.mod_0_l. lia.
Qed.

Lemma PAGE_ALIGN_ulong (a : Z) : ulong (PAGE_ALIGN a).
Proof.
  rewrite PAGE_ALIGN_eq. pose proof PAGE_SIZE_pos.
  pose proof (wrap_range (a + (PAGE_SIZE - 1))).
  pose proof (Z.mod_pos_bound (wrap (a + (PAGE_SIZE - 1))) PAGE_SIZE).
  pose proof (Z.mod_le (wrap (a + (PAGE_SIZE - 1))) PAGE_SIZE).
  unfold ulong. lia.
Qed.

(** The colouring granule is a power of two below the word size. *)
Lemma SHMLBA_log2 : 0 <= Z.log2 SHMLBA < BITS_PER_LONG.
Proof.
  destruct Hok as [_ Hp Hl]. split; [apply Z.log2_nonneg |].
  apply Z.log2_lt_pow2; lia.
Qed.

Lemma shmlba_low_bits : sub_ul SHMLBA 1 = Z.ones (Z.log2 SHMLBA).
Proof.
  destruct Hok as [_ Hp Hl]. rewrite Hp at 1.
  apply sub_ul_pow2_1, SHMLBA_log2.
Qed.

Lemma colour_eq (o : Z) : colour o = wrap (Z.shiftl o PAGE_SHIFT) mod SHMLBA.
Proof.
  unfold colour, shl_ul. rewrite shmlba_low_bits.
  destruct Hok as [_ Hp _]. rewrite Hp at 2.
  apply land_ul_ones, SHMLBA_log2.
Qed.

Lemma colour_range (o : Z) : 0 <= colour o < SHMLBA.
Proof.
  rewrite colour_eq. destruct Hok as [_ _ Hl]. apply Z.mod_pos_bound. lia.
Qed.

(** [SHMLBA] divides the modulus of the word arithmetic, so wrapping does
    not change a residue modulo [SHMLBA]. *)
Lemma wrap_mod_SHMLBA (x : Z) : wrap x mod SHMLBA = x mod SHMLBA.
Proof.
  unfold wrap. destruct Hok as [_ Hp Hl].
  apply Z.mod_mod_divide.
  rewrite Hp. pose proof SHMLBA_log2.
  exists (2 ^ (BITS_PER_LONG - Z.log2 SHMLBA)).
  rewrite <- Z.pow_add_r by lia. f_equal. lia.
Qed.

Lemma wrap_mod_PAGE_SIZE (x : Z) : wrap x mod PAGE_SIZE = x mod PAGE_SIZE.
Proof.
  unfold wrap. destruct Hok as [Hs _ _].
  apply Z.mod_mod_divide.
  rewrite PAGE_SIZE_eq.
  exists (2 ^ (BITS_PER_LONG - PAGE_SHIFT)).
  rewrite <- Z.pow_add_r by lia. f_equal. lia.
Qed.

(** The colour-aligned address in plain arithmetic: [addr] rounded up to a
    multiple of [SHMLBA] (inside the word), plus the colour. *)
Lemma COLOUR_ALIGN_eq (a o : Z) :
  COLOUR_ALIGN a o =
  wrap (a + SHMLBA - 1) - wrap (a + SHMLBA - 1) mod SHMLBA + colour o.
Proof.
  unfold COLOUR_ALIGN. fold (colour o).
  rewrite shmlba_low_bits.
  assert (Hx : sub_ul (add_ul a SHMLBA) 1 = wrap (a + SHMLBA - 1)).
  { unfold sub_ul, add_ul, wrap. rewrite Zminus_mod_idemp_l. reflexivity. }
  rewrite Hx. pose proof SHMLBA_log2 as Hk.
  rewrite land_not_ul_ones by (try apply wrap_ulong; lia).
  destruct Hok as [_ Hp Hl]. rewrite <- Hp.
  set (x := wrap (a + SHMLBA - 1)).
  pose proof (wrap_range (a + SHMLBA - 1)) as Hxr. fold x in Hxr.
  pose proof (colour_range o) as Hc.
  (* a multiple of SHMLBA below the modulus leaves room for one granule *)
  assert (Hroom : x - x mod SHMLBA + SHMLBA <= 2 ^ BITS_PER_LONG).
  { assert (Hdiv : 2 ^ BITS_PER_LONG = SHMLBA * 2 ^ (BITS_PER_LONG - Z.log2 SHMLBA)).
    { rewrite Hp at 1. rewrite <- Z.pow_add_r by lia. f_equal. lia. }
    assert (Hnz : SHMLBA <> 0) by lia.
    assert (Hpos : 0 < SHMLBA) by lia.
    pose proof (Z.div_mod x SHMLBA Hnz) as Hdm.
    pose proof (Z.mod_pos_bound x SHMLBA Hpos).
    assert (x / SHMLBA < 2 ^ (BITS_PER_LONG - Z.log2 SHMLBA))
      by (apply Z.div_lt_upper_bound; lia).
    nia. }
  assert (Hpos : 0 < SHMLBA) by lia.
  pose proof (Z.mod_pos_bound x SHMLBA Hpos).
  pose proof (Z.mod_le x SHMLBA ltac:(lia) Hpos).
  unfold add_ul. apply wrap_small. unfold ulong. lia.
Qed.

End WordFacts.

(** ** Colour alignment *)

Section ColourFacts.
Context {P : platform}.
Hypothesis Hok : words_ok.

(** Rounding [r + k*S] down to a multiple of [S], for a residue [r]. *)
Lemma round_down_residue (S r k : Z) :
  0 <= r < S -> (r + k * S) - (r + k * S) mod S = k * S.
Proof.
  intros Hr. rewrite Z.mod_add by lia. rewrite Z.mod_small by lia. lia.
Qed.

(** The word modulus as a multiple of the granule. *)
Lemma word_multiple_of_SHMLBA :
  exists m, 1 < m /\ 2 ^ BITS_PER_LONG = m * SHMLBA.
Proof.
  pose proof (SHMLBA_log2 Hok) as Hk. destruct Hok as [_ Hp Hl].
  exists (2 ^ (BITS_PER_LONG - Z.log2 SHMLBA)). split.
  - change 1 with (2 ^ 0). apply Z.pow_lt_mono_r; lia.
  - rewrite Hp at 2. rewrite <- Z.pow_add_r by lia. f_equal. lia.
Qed.

(** The rounded-up part of [COLOUR_ALIGN] is a multiple of the granule with
    room for one more granule inside the word. *)
Lemma COLOUR_ALIGN_shape (a o : Z) :
  exists q, 0 <= q /\ (q + 1) * SHMLBA <= 2 ^ BITS_PER_LONG /\
            wrap (a + SHMLBA - 1) = q * SHMLBA + wrap (a + SHMLBA - 1) mod SHMLBA /\
            COLOUR_ALIGN a o = q * SHMLBA + colour o.
Proof.
  rewrite (COLOUR_ALIGN_eq Hok).
  set (x := wrap (a + SHMLBA - 1)).
  pose proof (wrap_range Hok (a + SHMLBA - 1)) as Hx. fold x in Hx.
  destruct word_multiple_of_SHMLBA as (m & Hm & HW).
  destruct Hok as [_ _ Hl].
  assert (Hpos : 0 < SHMLBA) by lia.
  assert (Hnz : SHMLBA <> 0) by lia.
  pose proof (Z.div_mod x SHMLBA Hnz) as Hdm.
  pose proof (Z.mod_pos_bound x SHMLBA Hpos) as Hr.
  exists (x / SHMLBA).
  assert (0 <= x / SHMLBA) by (apply Z.div_pos; lia).
  assert (x / SHMLBA < m) by (apply Z.div_lt_upper_bound; nia).
  repeat split; try lia; nia.
Qed.

Lemma COLOUR_ALIGN_ulong (a o : Z) : ulong (COLOUR_ALIGN a o).
Proof.
  destruct (COLOUR_ALIGN_shape a o) as (q & Hq & Hroom & _ & ->).
  pose proof (colour_range Hok o). unfold ulong. nia.
Qed.

(** Aligning twice: nothing changes when the colour is 0; otherwise the
    second alignment moves one granule up (inside the word). *)
Lemma COLOUR_ALIGN_twice (a o : Z) :
  COLOUR_ALIGN (COLOUR_ALIGN a o) o =
  if colour o =? 0 then COLOUR_ALIGN a o
  else wrap (COLOUR_ALIGN a o + SHMLBA).
Proof.
  destruct (COLOUR_ALIGN_shape a o) as (q & Hq & Hroom & _ & Hca).
  pose proof (colour_range Hok o) as Hc.
  destruct word_multiple_of_SHMLBA as (m & Hm & HW).
  assert (Hpos : 0 < SHMLBA) by (destruct Hok; lia).
  rewrite (COLOUR_ALIGN_eq Hok (COLOUR_ALIGN a o) o), Hca.
  destruct (Z.eqb_spec (colour o) 0) as [Hz | Hnz].
  - (* colour 0: the address is already a multiple of the granule *)
    rewrite Hz, !Z.add_0_r.
    rewrite wrap_small by (unfold ulong; nia).
    replace (q * SHMLBA + SHMLBA - 1) with ((SHMLBA - 1) + q * SHMLBA) by lia.
    rewrite round_down_residue by lia. reflexivity.
  - (* a colour in between: the next granule is taken *)
    set (y := q * SHMLBA + colour o + SHMLBA - 1).
    assert (Hy : y = (colour o - 1) + (q + 1) * SHMLBA) by (unfold y; lia).
    destruct (Z_lt_le_dec y (2 ^ BITS_PER_LONG)) as [Hin | Hout].
    + rewrite (wrap_small y) by (unfold ulong; lia).
      rewrite Hy, round_down_residue by lia.
      (* (q+1) granules fit strictly below the modulus, hence (q+2) do *)
      assert (q + 1 < m) by nia.
      rewrite wrap_small by (unfold ulong; nia). lia.
    + assert (Hq1 : q + 1 = m) by nia.
      assert (Hwy : wrap y = (colour o - 1) + 0 * SHMLBA).
      { unfold wrap. symmetry.
        apply Z.mod_unique with (q := 1); [left; nia | nia]. }
      rewrite Hwy, round_down_residue by lia.
      unfold wrap.
      apply Z.mod_unique with (q := 1); [left; nia | nia].
Qed.

(** A second alignment never returns the first result for a colour other
    than 0. *)
Lemma wrap_add_SHMLBA_neq (c : Z) : ulong c -> wrap (c + SHMLBA) <> c.
Proof.
  intros Hu Heq. destruct Hok as [_ _ Hl]. unfold ulong in Hu. unfold wrap in Heq.
  destruct (Z_lt_le_dec (c + SHMLBA) (2 ^ BITS_PER_LONG)) as [Hin | Hout].
  - rewrite Z.mod_small in Heq by lia. lia.
  - assert (Hm : (c + SHMLBA) mod 2 ^ BITS_PER_LONG
                 = c + SHMLBA - 2 ^ BITS_PER_LONG).
    { symmetry. apply Z.mod_unique with (q := 1); [left; lia | lia]. }
    lia.
Qed.

Lemma COLOUR_ALIGN_ge (a o : Z) :
  ulong a -> a + SHMLBA - 1 < 2 ^ BITS_PER_LONG -> a <= COLOUR_ALIGN a o.
Proof.
  intros Ha Hno.
  destruct (COLOUR_ALIGN_shape a o) as (q & Hq & Hroom & Hx & Hca).
  pose proof (colour_range Hok o) as Hc.
  assert (Hpos : 0 < SHMLBA) by (destruct Hok; lia).
  rewrite Hca. rewrite wrap_small in Hx by (unfold ulong in *; lia).
  pose proof (Z.mod_pos_bound (a + SHMLBA - 1) SHMLBA Hpos). lia.
Qed.

Lemma COLOUR_ALIGN_congruent (a o : Z) :
  COLOUR_ALIGN a o mod SHMLBA = Z.shiftl o PAGE_SHIFT mod SHMLBA.
Proof.
  destruct (COLOUR_ALIGN_shape a o) as (q & Hq & Hroom & Hx & Hca).
  assert (Hpos : 0 < SHMLBA) by (destruct Hok; lia).
  rewrite Hca, Z.add_comm, Z.mod_add by lia.
  rewrite (colour_eq Hok), Z.mod_mod by lia.
  apply (wrap_mod_SHMLBA Hok).
Qed.

Lemma COLOUR_ALIGN_page_aligned (a o : Z) :
  (PAGE_SIZE | SHMLBA) -> COLOUR_ALIGN a o mod PAGE_SIZE = 0.
Proof.
  intros Hdiv.
  destruct (COLOUR_ALIGN_shape a o) as (q & Hq & Hroom & Hx & Hca).
  assert (Hpos : 0 < SHMLBA) by (destruct Hok; lia).
  rewrite Hca. pose proof (PAGE_SIZE_pos Hok) as Hpp.
  apply Z.mod_divide; [lia |]. apply Z.divide_add_r.
  - apply Z.divide_mul_r, Hdiv.
  - (* the colour is a shifted page offset, reduced modulo a multiple of
       the page size *)
    apply Z.mod_divide; [lia |].
    rewrite (colour_eq Hok), <- (Z.mod_mod_divide _ _ _ Hdiv), Z.mod_mod by lia.
    rewrite (Z.mod_mod_divide _ _ _ Hdiv), (wrap_mod_PAGE_SIZE Hok).
    rewrite Z.shiftl_mul_pow2 by (destruct Hok; lia).
    rewrite (PAGE_SIZE_eq Hok). apply Z.mod_mul.
    rewrite <- (PAGE_SIZE_eq Hok). lia.
Qed.

End ColourFacts.

(** ** The gap search *)

Section FirstFit.
Variable fits : Z -> bool.
Variable step : Z.

(** A result of [first_fit] fits and is one of the addresses tried. *)
Lemma first_fit_sound (fuel : nat) (a r : Z) :
  first_fit fits step fuel a = Some r ->
  fits r = true /\
  exists k, (k < fuel)%nat /\ r = a + Z.of_nat k * step /\
            forall j, (j < k)%nat -> fits (a + Z.of_nat j * step) = false.
Proof.
  revert a. induction fuel as [| n IH]; intros a H; simpl in H; [discriminate |].
  destruct (fits a) eqn:Ha.
  - injection H as <-. split; [exact Ha |].
    exists 0%nat. repeat split; [lia | simpl; lia | intros j Hj; lia].
  - destruct (IH _ H) as (Hr & k & Hk & -> & Hbefore). split; [exact Hr |].
    exists (S k). repeat split; [lia | lia |].
    intros [| j] Hj.
    + simpl. rewrite Z.add_0_r. exact Ha.
    + replace (a + Z.of_nat (S j) * step)
        with (a + step + Z.of_nat j * step) by lia.
      apply Hbefore. lia.
Qed.

(** When nothing is returned, none of the addresses tried fits. *)
Lemma first_fit_none (fuel : nat) (a : Z) :
  first_fit fits step fuel a = None ->
  forall k, (k < fuel)%nat -> fits (a + Z.of_nat k * step) = false.
Proof.
  revert a. induction fuel as [| n IH]; intros a H k Hk; [lia |].
  simpl in H. destruct (fits a) eqn:Ha; [discriminate |].
  destruct k as [| k].
  - simpl. rewrite Z.add_0_r. exact Ha.
  - replace (a + Z.of_nat (S k) * step)
      with (a + step + Z.of_nat k * step) by lia.
    apply IH; [exact H | lia].
Qed.

(** When one of the addresses tried fits, something is returned. *)
Lemma first_fit_some (fuel : nat) (a : Z) (k : nat) :
  (k < fuel)%nat -> fits (a + Z.of_nat k * step) = true ->
  exists r, first_fit fits step fuel a = Some r.
Proof.
  intros Hk Hfit.
  destruct (first_fit fits step fuel a) as [r |] eqn:E; [eauto |].
  rewrite (first_fit_none _ _ E k Hk) in Hfit. discriminate.
Qed.

End FirstFit.

Section SearchFacts.
Context {P : platform}.
Hypothesis Hok : words_ok.

Lemma gap_free_iff (mm : mm_struct) (a len : Z) :
  gap_free mm a len = true <->
  forall v, In v (mm_mmap mm) -> vm_end v <= a \/ a + len <= vm_start_gap v.
Proof.
  unfold gap_free. rewrite forallb_forall.
  split; intros H v Hv; specialize (H v Hv).
  - apply orb_true_iff in H. destruct H as [H | H]; apply Z.leb_le in H; tauto.
  - apply orb_true_iff. destruct H; [left | right]; apply Z.leb_le; assumption.
Qed.

(** The guard-adjusted start is the start less one page, and 0 for a region
    that starts inside the first page. *)
Lemma vm_start_gap_eq (v : vm_area_struct) :
  ulong (vm_start v) -> vm_start_gap v = Z.max 0 (vm_start v - PAGE_SIZE).
Proof.
  intros Hs. unfold vm_start_gap, sub_ul, ulong in *.
  pose proof (PAGE_SIZE_pos Hok). pose proof (PAGE_SIZE_lt_word Hok).
  destruct (Z_lt_le_dec (vm_start v) PAGE_SIZE) as [Hlt | Hge].
  - assert (E : wrap (vm_start v - PAGE_SIZE)
                = vm_start v - PAGE_SIZE + 2 ^ BITS_PER_LONG).
    { unfold wrap. symmetry.
      apply Z.mod_unique with (q := -1); [left; lia | lia]. }
    rewrite E. destruct (Z.gtb_spec (vm_start v - PAGE_SIZE + 2 ^ BITS_PER_LONG)
                                    (vm_start v)); lia.
  - rewrite wrap_small by (unfold ulong; lia).
    destruct (Z.gtb_spec (vm_start v - PAGE_SIZE) (vm_start v)); lia.
Qed.

Lemma vm_start_gap_le (v : vm_area_struct) :
  ulong (vm_start v) -> 0 <= vm_start_gap v <= vm_start v.
Proof.
  intros Hs. rewrite vm_start_gap_eq by assumption.
  pose proof (PAGE_SIZE_pos Hok). unfold ulong in Hs. lia.
Qed.

(** What [gap_fits] decides. *)
Lemma gap_fits_iff (mm : mm_struct) (info : vm_unmapped_area_info) (a : Z) :
  gap_fits mm info a = true <->
  info_low_limit info <= a /\
  a + info_length info <= info_high_limit info /\
  page_aligned a /\
  Z.land (sub_ul a (info_align_offset info)) (info_align_mask info) = 0 /\
  gap_free mm a (info_length info) = true.
Proof.
  unfold gap_fits, page_aligned. rewrite (page_offset_bits Hok).
  destruct (Z.leb_spec (info_low_limit info) a);
    destruct (Z.leb_spec (a + info_length info) (info_high_limit info));
    simpl; try (split; [discriminate | lia]).
  rewrite !andb_true_iff, !Z.eqb_eq. tauto.
Qed.

(** Page boundaries between two bounds are reached from the first one in
    whole pages. *)
Lemma page_steps_up (lo a : Z) :
  lo <= a -> page_aligned a ->
  exists k, a = page_floor (lo + PAGE_SIZE - 1) + Z.of_nat k * PAGE_SIZE.
Proof.
  intros Hle Ha. unfold page_aligned, page_floor in *.
  pose proof (PAGE_SIZE_pos Hok) as Hp.
  apply Z.mod_divide in Ha; [| lia]. destruct Ha as [q ->].
  assert (Hq : (lo + PAGE_SIZE - 1) / PAGE_SIZE <= q).
  { (* lo <= q * PAGE_SIZE gives lo + PAGE_SIZE - 1 < (q + 1) * PAGE_SIZE *)
    assert ((lo + PAGE_SIZE - 1) / PAGE_SIZE < q + 1)
      by (apply Z.div_lt_upper_bound; lia).
    lia. }
  exists (Z.to_nat (q - (lo + PAGE_SIZE - 1) / PAGE_SIZE)).
  rewrite Z2Nat.id by lia. lia.
Qed.

Lemma page_steps_down (hi a : Z) :
  a <= hi -> page_aligned a ->
  exists k, a = page_floor hi + Z.of_nat k * (- PAGE_SIZE).
Proof.
  intros Hle Ha. unfold page_aligned, page_floor in *.
  pose proof (PAGE_SIZE_pos Hok) as Hp.
  apply Z.mod_divide in Ha; [| lia]. destruct Ha as [q ->].
  assert (Hq : q <= hi / PAGE_SIZE) by (apply Z.div_le_lower_bound; lia).
  exists (Z.to_nat (hi / PAGE_SIZE - q)).
  rewrite Z2Nat.id by lia. lia.
Qed.

(** The ascending search returns an address that fits, and the lowest. *)
Lemma lowest_gap_sound (mm : mm_struct) (info : vm_unmapped_area_info) (a : Z) :
  lowest_gap mm info = Some a ->
  gap_fits mm info a = true /\
  forall b, gap_fits mm info b = true -> a <= b.
Proof.
  unfold lowest_gap. intros H.
  destruct (first_fit_sound _ _ _ _ _ H) as (Hfit & k & Hk & Hr & Hbefore).
  split; [exact Hfit |]. intros b Hb.
  pose proof (PAGE_SIZE_pos Hok) as Hp.
  pose proof Hb as Hfb.
  apply gap_fits_iff in Hb. destruct Hb as (Hlo & Hhi & Hpa & _).
  destruct (page_steps_up _ _ Hlo Hpa) as (j & Hj).
  destruct (Nat.lt_ge_cases j k) as [Hlt | Hge]; [| subst; nia].
  specialize (Hbefore j Hlt). rewrite <- Hj in Hbefore.
  rewrite Hfb in Hbefore. discriminate.
Qed.

(** It finds a gap whenever some address fits. *)
Lemma lowest_gap_complete (mm : mm_struct) (info : vm_unmapped_area_info) (b : Z) :
  gap_fits mm info b = true -> exists a, lowest_gap mm info = Some a.
Proof.
  intros Hb. pose proof Hb as Hb'.
  apply gap_fits_iff in Hb'. destruct Hb' as (Hlo & Hhi & Hpa & _).
  destruct (page_steps_up _ _ Hlo Hpa) as (k & Hk).
  pose proof (PAGE_SIZE_pos Hok) as Hp.
  unfold lowest_gap. apply first_fit_some with (k := k).
  - set (start := page_floor (info_low_limit info + PAGE_SIZE - 1)) in *.
    assert (Z.of_nat k <= (info_high_limit info - info_length info - start)
                          / PAGE_SIZE).
    { apply Z.div_le_lower_bound; lia. }
    lia.
  - rewrite <- Hk. exact Hb.
Qed.

(** The descending search returns an address that fits, and the highest. *)
Lemma highest_gap_sound (mm : mm_struct) (info : vm_unmapped_area_info) (a : Z) :
  highest_gap mm info = Some a ->
  gap_fits mm info a = true /\
  forall b, gap_fits mm info b = true -> b <= a.
Proof.
  unfold highest_gap. intros H.
  destruct (first_fit_sound _ _ _ _ _ H) as (Hfit & k & Hk & Hr & Hbefore).
  split; [exact Hfit |]. intros b Hb.
  pose proof (PAGE_SIZE_pos Hok) as Hp.
  pose proof Hb as Hfb.
  apply gap_fits_iff in Hb. destruct Hb as (Hlo & Hhi & Hpa & _).
  assert (Hle : b <= info_high_limit info - info_length info) by lia.
  destruct (page_steps_down _ _ Hle Hpa) as (j & Hj).
  destruct (Nat.lt_ge_cases j k) as [Hlt | Hge]; [| subst; nia].
  specialize (Hbefore j Hlt). rewrite <- Hj in Hbefore.
  rewrite Hfb in Hbefore. discriminate.
Qed.

Lemma highest_gap_complete (mm : mm_struct) (info : vm_unmapped_area_info) (b : Z) :
  gap_fits mm info b = true -> exists a, highest_gap mm info = Some a.
Proof.
  intros Hb. pose proof Hb as Hb'.
  apply gap_fits_iff in Hb'. destruct Hb' as (Hlo & Hhi & Hpa & _).
  assert (Hle : b <= info_high_limit info - info_length info) by lia.
  destruct (page_steps_down _ _ Hle Hpa) as (k & Hk).
  pose proof (PAGE_SIZE_pos Hok) as Hp.
  unfold highest_gap. apply first_fit_some with (k := k).
  - set (start := page_floor (info_high_limit info - info_length info)) in *.
    assert (Z.of_nat k <= (start - info_low_limit info) / PAGE_SIZE).
    { apply Z.div_le_lower_bound; lia. }
    lia.
  - rewrite <- Hk. exact Hb.
Qed.

End SearchFacts.

(** ** Results of the search as the placement functions see them *)

Section ResultFacts.
Context {P : platform}.
Hypothesis Hok : words_ok.

(** The search returns an address that fits, or [-ENOMEM] when no address
    fits. *)
Lemma vm_unmapped_area_cases (mm : mm_struct) (info : vm_unmapped_area_info) :
  gap_fits mm info (vm_unmapped_area mm info) = true \/
  (vm_unmapped_area mm info = neg_ul ENOMEM /\
   forall b, gap_fits mm info b = false).
Proof.
  unfold vm_unmapped_area.
  destruct (nonzero (Z.land (info_flags info) VM_UNMAPPED_AREA_TOPDOWN)).
  - destruct (highest_gap mm info) as [a |] eqn:E.
    + left. apply (highest_gap_sound Hok _ _ _ E).
    + right. split; [reflexivity |]. intros b.
      destruct (gap_fits mm info b) eqn:Hb; [| reflexivity].
      destruct (highest_gap_complete Hok _ _ _ Hb) as (a & Ha). congruence.
  - destruct (lowest_gap mm info) as [a |] eqn:E.
    + left. apply (lowest_gap_sound Hok _ _ _ E).
    + right. split; [reflexivity |]. intros b.
      destruct (gap_fits mm info b) eqn:Hb; [| reflexivity].
      destruct (lowest_gap_complete Hok _ _ _ Hb) as (a & Ha). congruence.
Qed.

(** An error number below the page size, negated, is not a page boundary. *)
Lemma neg_errno_not_aligned (e : Z) :
  0 < e < PAGE_SIZE -> neg_ul e mod PAGE_SIZE <> 0.
Proof.
  intros He. unfold neg_ul. rewrite (wrap_mod_PAGE_SIZE Hok).
  assert (E : (- e) mod PAGE_SIZE = PAGE_SIZE - e).
  { symmetry. apply Z.mod_unique with (q := -1); [left; lia | lia]. }
  lia.
Qed.

(** The test of the fall-back, [addr & ~PAGE_MASK], is true exactly when
    the search returned [-ENOMEM]: the assertion [VM_BUG_ON(addr != -ENOMEM)]
    never fires. *)
Lemma search_failed_iff (mm : mm_struct) (info : vm_unmapped_area_info) :
  0 < ENOMEM < PAGE_SIZE ->
  (nonzero (Z.land (vm_unmapped_area mm info) (not_ul PAGE_MASK)) = true <->
   vm_unmapped_area mm info = neg_ul ENOMEM).
Proof.
  intros He. unfold nonzero. rewrite (page_offset_bits Hok).
  rewrite negb_true_iff, Z.eqb_neq.
  destruct (vm_unmapped_area_cases mm info) as [Hfit | [Hnone _]].
  - apply (gap_fits_iff Hok) in Hfit. destruct Hfit as (_ & _ & Hpa & _).
    unfold page_aligned in Hpa. split; [intros H; contradiction |].
    intros E. rewrite E in Hpa.
    exfalso. exact (neg_errno_not_aligned _ He Hpa).
  - rewrite Hnone. split; [reflexivity |]. intros _.
    apply neg_errno_not_aligned, He.
Qed.

(** The aligned hint is a word and, when [SHMLBA] is a multiple of the page
    size, a page boundary. *)
Lemma align_hint_ulong (d : bool) (addr pgoff : Z) :
  ulong (align_hint d addr pgoff).
Proof.
  destruct d; simpl; [apply (COLOUR_ALIGN_ulong Hok) | apply (PAGE_ALIGN_ulong Hok)].
Qed.

Lemma align_hint_aligned (d : bool) (addr pgoff : Z) :
  (PAGE_SIZE | SHMLBA) -> page_aligned (align_hint d addr pgoff).
Proof.
  intros Hdiv. destruct d; simpl.
  - apply (COLOUR_ALIGN_page_aligned Hok), Hdiv.
  - apply (PAGE_ALIGN_aligned Hok).
Qed.

(** The length test passes exactly when the length fits between the floor
    and the top of the address range. *)
Lemma len_test_iff (len : Z) :
  limits_ok ->
  ((len >? sub_ul TASK_SIZE mmap_min_addr) = false <->
   len <= TASK_SIZE - mmap_min_addr).
Proof.
  intros [Hm Ht]. unfold sub_ul.
  rewrite wrap_small by (unfold ulong; lia).
  destruct (Z.gtb_spec len (TASK_SIZE - mmap_min_addr)); split; intros; lia || congruence.
Qed.

(** The test of the hint path in plain arithmetic. *)
Lemma hint_ok_iff (mm : mm_struct) (h len : Z) :
  limits_ok -> ulong h -> 0 <= len <= TASK_SIZE - mmap_min_addr ->
  (hint_ok mm h len = true <->
   h <= TASK_SIZE - len /\ mmap_min_addr <= h /\
   match find_vma mm h with
   | None => True
   | Some v => h + len <= vm_start_gap v
   end).
Proof.
  intros [Hm Ht] Hh Hlen. unfold hint_ok, sub_ul, add_ul, ulong in *.
  rewrite (wrap_small (TASK_SIZE - len)) by (unfold ulong; lia).
  rewrite !andb_true_iff, Z.geb_le, Z.geb_le.
  split.
  - intros [[H1 H2] H3]. repeat split; try lia.
    destruct (find_vma mm h) as [v |]; [| exact I].
    rewrite wrap_small in H3 by (unfold ulong; lia).
    apply Z.leb_le in H3. exact H3.
  - intros (H1 & H2 & H3). repeat split; try lia.
    destruct (find_vma mm h) as [v |]; [| reflexivity].
    rewrite wrap_small by (unfold ulong; lia).
    apply Z.leb_le. exact H3.
Qed.

(** In a list sorted by start, the head starts lowest. *)
Lemma sorted_head_lowest (v : vm_area_struct) (l : list vm_area_struct) :
  sorted_by_start (v :: l) = true ->
  forall w, In w l -> vm_start v <= vm_start w.
Proof.
  revert v. induction l as [| u l IH]; intros v Hs w Hw; [contradiction |].
  simpl in Hs. apply andb_true_iff in Hs. destruct Hs as [Hvu Hrest].
  apply Z.leb_le in Hvu. destruct Hw as [<- | Hw]; [exact Hvu |].
  specialize (IH u Hrest w Hw). lia.
Qed.

Lemma sorted_tail (v : vm_area_struct) (l : list vm_area_struct) :
  sorted_by_start (v :: l) = true -> sorted_by_start l = true.
Proof.
  destruct l as [| u l]; [reflexivity |]. simpl.
  intros H. apply andb_true_iff in H. tauto.
Qed.

Lemma mm_ok_bounds (mm : mm_struct) (v : vm_area_struct) :
  mm_ok mm = true -> In v (mm_mmap mm) ->
  ulong (vm_start v) /\ ulong (vm_end v).
Proof.
  unfold mm_ok, ulong. intros H Hv. apply andb_true_iff in H.
  destruct H as [H _]. rewrite forallb_forall in H. specialize (H v Hv).
  rewrite !andb_true_iff in H. lia.
Qed.

(** The one region [find_vma] looks at decides for all of them: when the
    interval ends at or below the guard-adjusted start of the first region
    that ends above [h], it is clear of every region. *)
Lemma hint_clear_of_all (l : list vm_area_struct) (h len : Z) :
  (forall v, In v l -> ulong (vm_start v)) ->
  sorted_by_start l = true ->
  match find (fun v => h <? vm_end v) l with
  | None => True
  | Some v => h + len <= vm_start_gap v
  end ->
  forall v, In v l -> vm_end v <= h \/ h + len <= vm_start_gap v.
Proof.
  induction l as [| u l IH]; intros Hb Hs Hf v Hv; [contradiction |].
  simpl in Hf. destruct (Z.ltb_spec h (vm_end u)) as [Hin | Hout].
  - (* [u] is the region found; the others start no lower *)
    right. destruct Hv as [<- | Hv]; [exact Hf |].
    pose proof (sorted_head_lowest _ _ Hs v Hv) as Hle.
    rewrite (vm_start_gap_eq Hok u) in Hf by (apply Hb; left; reflexivity).
    rewrite (vm_start_gap_eq Hok v) by (apply Hb; right; exact Hv). lia.
  - destruct Hv as [<- | Hv]; [left; exact Hout |].
    apply IH; auto.
    + intros w Hw. apply Hb. right. exact Hw.
    + apply (sorted_tail _ _ Hs).
Qed.

(** Being clear of the guard-adjusted starts is being clear of the
    regions. *)
Lemma gap_free_no_overlap (mm : mm_struct) (a len : Z) :
  mm_ok mm = true ->
  (forall v, In v (mm_mmap mm) -> vm_end v <= a \/ a + len <= vm_start_gap v) ->
  forall v, In v (mm_mmap mm) -> vm_end v <= a \/ a + len <= vm_start v.
Proof.
  intros Hmm H v Hv. destruct (H v Hv) as [Hl | Hr]; [left; exact Hl |].
  destruct (mm_ok_bounds _ _ Hmm Hv) as [Hs _].
  pose proof (vm_start_gap_le Hok v Hs). right. lia.
Qed.

End ResultFacts.

(** ** The four ways through a placement function *)

Section Runs.
Context {P : platform}.
Variable current : task_struct.
Variable ratelimit : bool.
Variable filp : option file.
Variables addr len pgoff flags : Z.

Let mm := task_mm current.
Let do_align := do_align_of filp flags.
Let hint := align_hint do_align addr pgoff.

(** Bottom-up, [MAP_FIXED]. *)
Lemma bottomup_fixed :
  nonzero (Z.land flags MAP_FIXED) = true ->
  arch_get_unmapped_area current ratelimit filp addr len pgoff flags =
  (if fixed_misaligned addr pgoff flags then neg_ul EINVAL else addr, []).
Proof.
  intros Hf. unfold arch_get_unmapped_area. rewrite Hf.
  destruct (fixed_misaligned addr pgoff flags); reflexivity.
Qed.

(** Bottom-up, length beyond the address space. *)
Lemma bottomup_too_long :
  nonzero (Z.land flags MAP_FIXED) = false ->
  (len >? sub_ul TASK_SIZE mmap_min_addr) = true ->
  arch_get_unmapped_area current ratelimit filp addr len pgoff flags =
  (neg_ul ENOMEM,
   if ratelimit then [printk_len 89 current len addr] else []).
Proof.
  intros Hf Hl. unfold arch_get_unmapped_area. rewrite Hf, Hl.
  destruct ratelimit; reflexivity.
Qed.

(** Bottom-up, hint accepted. *)
Lemma bottomup_hint :
  nonzero (Z.land flags MAP_FIXED) = false ->
  (len >? sub_ul TASK_SIZE mmap_min_addr) = false ->
  nonzero addr && hint_ok mm hint len = true ->
  arch_get_unmapped_area current ratelimit filp addr len pgoff flags =
  (hint, []).
Proof.
  intros Hf Hl Hh. unfold arch_get_unmapped_area. rewrite Hf, Hl.
  fold mm do_align hint. rewrite Hh. reflexivity.
Qed.

(** Bottom-up, search. *)
Lemma bottomup_search :
  nonzero (Z.land flags MAP_FIXED) = false ->
  (len >? sub_ul TASK_SIZE mmap_min_addr) = false ->
  nonzero addr && hint_ok mm hint len = false ->
  exists diag,
    searched diag = false /\
    arch_get_unmapped_area current ratelimit filp addr len pgoff flags =
    (vm_unmapped_area mm (bottomup_info mm do_align len pgoff),
     ev_vm_unmapped_area (bottomup_info mm do_align len pgoff) :: diag).
Proof.
  intros Hf Hl Hh. unfold arch_get_unmapped_area. rewrite Hf, Hl.
  fold mm do_align hint. rewrite Hh.
  set (info := bottomup_info mm do_align len pgoff).
  unfold call_vm_unmapped_area, bind, tell, ret, ratelimited. simpl.
  destruct (vm_unmapped_area mm info =? neg_ul ENOMEM);
    [destruct ratelimit |]; simpl; eexists; (split; [| reflexivity]); reflexivity.
Qed.

(** Top-down, length beyond the address space. *)
Lemma topdown_too_long :
  (len >? sub_ul TASK_SIZE mmap_min_addr) = true ->
  arch_get_unmapped_area_topdown current ratelimit filp addr len pgoff flags =
  (neg_ul ENOMEM,
   if ratelimit then [printk_len 156 current len addr] else []).
Proof.
  intros Hl. unfold arch_get_unmapped_area_topdown. rewrite Hl.
  destruct ratelimit; reflexivity.
Qed.

(** Top-down, [MAP_FIXED]. *)
Lemma topdown_fixed :
  (len >? sub_ul TASK_SIZE mmap_min_addr) = false ->
  nonzero (Z.land flags MAP_FIXED) = true ->
  arch_get_unmapped_area_topdown current ratelimit filp addr len pgoff flags =
  (if fixed_misaligned addr pgoff flags then neg_ul EINVAL else addr, []).
Proof.
  intros Hl Hf. unfold arch_get_unmapped_area_topdown. rewrite Hf, Hl.
  destruct (fixed_misaligned addr pgoff flags); reflexivity.
Qed.

(** Top-down, hint accepted. *)
Lemma topdown_hint :
  (len >? sub_ul TASK_SIZE mmap_min_addr) = false ->
  nonzero (Z.land flags MAP_FIXED) = false ->
  nonzero addr && hint_ok mm hint len = true ->
  arch_get_unmapped_area_topdown current ratelimit filp addr len pgoff flags =
  (hint, []).
Proof.
  intros Hl Hf Hh. unfold arch_get_unmapped_area_topdown. rewrite Hf, Hl.
  fold mm do_align hint. rewrite Hh. reflexivity.
Qed.

(** Top-down, search that finds a page boundary. *)
Lemma topdown_search_found :
  (len >? sub_ul TASK_SIZE mmap_min_addr) = false ->
  nonzero (Z.land flags MAP_FIXED) = false ->
  nonzero addr && hint_ok mm hint len = false ->
  nonzero (Z.land (vm_unmapped_area mm (topdown_info mm do_align len pgoff))
                  (not_ul PAGE_MASK)) = false ->
  exists diag,
    searched diag = false /\
    arch_get_unmapped_area_topdown current ratelimit filp addr len pgoff flags =
    (vm_unmapped_area mm (topdown_info mm do_align len pgoff),
     ev_vm_unmapped_area (topdown_info mm do_align len pgoff) :: diag).
Proof.
  intros Hl Hf Hh Hr. unfold arch_get_unmapped_area_topdown. rewrite Hf, Hl.
  fold mm do_align hint. rewrite Hh.
  set (info := topdown_info mm do_align len pgoff) in *.
  unfold call_vm_unmapped_area, bind, tell, ret, ratelimited. simpl.
  rewrite Hr. simpl.
  destruct (vm_unmapped_area mm info =? neg_ul ENOMEM);
    [destruct ratelimit |]; simpl; eexists; (split; [| reflexivity]); reflexivity.
Qed.

(** Top-down, search that fails: the fall-back search is made and its result
    returned. *)
Lemma topdown_search_fallback :
  (len >? sub_ul TASK_SIZE mmap_min_addr) = false ->
  nonzero (Z.land flags MAP_FIXED) = false ->
  nonzero addr && hint_ok mm hint len = false ->
  nonzero (Z.land (vm_unmapped_area mm (topdown_info mm do_align len pgoff))
                  (not_ul PAGE_MASK)) = true ->
  exists diag,
    searched diag = false /\
    arch_get_unmapped_area_topdown current ratelimit filp addr len pgoff flags =
    (vm_unmapped_area mm (fallback_info mm (topdown_info mm do_align len pgoff)),
     ev_vm_unmapped_area (topdown_info mm do_align len pgoff)
     :: ev_vm_unmapped_area
          (fallback_info mm (topdown_info mm do_align len pgoff))
     :: diag).
Proof.
  intros Hl Hf Hh Hr. unfold arch_get_unmapped_area_topdown. rewrite Hf, Hl.
  fold mm do_align hint. rewrite Hh.
  set (info := topdown_info mm do_align len pgoff) in *.
  unfold call_vm_unmapped_area, bind, tell, ret, ratelimited. simpl.
  rewrite Hr. simpl.
  destruct (vm_unmapped_area mm (fallback_info mm info) =? neg_ul ENOMEM);
    [destruct ratelimit |]; simpl; eexists; (split; [| reflexivity]); reflexivity.
Qed.

End Runs.

(** ** Where a placement lands *)

Section Placement.
Context {P : platform}.
Hypothesis Hok : words_ok.
Hypothesis Hlim : limits_ok.

(** An accepted hint is a valid placement. *)
Lemma hint_placed_ok (mm : mm_struct) (d : bool) (addr len pgoff : Z) :
  (PAGE_SIZE | SHMLBA) -> mm_ok mm = true -> 0 <= len ->
  (len >? sub_ul TASK_SIZE mmap_min_addr) = false ->
  hint_ok mm (align_hint d addr pgoff) len = true ->
  placed_ok mm len (align_hint d addr pgoff).
Proof.
  intros Hdiv Hmm Hlen0 Hlen Hh.
  apply len_test_iff in Hlen; [| exact Hlim].
  set (h := align_hint d addr pgoff) in *.
  pose proof (align_hint_ulong Hok d addr pgoff) as Hu. fold h in Hu.
  apply hint_ok_iff in Hh; [| exact Hlim | exact Hu | lia].
  destruct Hh as (Htop & Hmin & Hvma).
  assert (Hclear : forall v, In v (mm_mmap mm) ->
                             vm_end v <= h \/ h + len <= vm_start_gap v).
  { apply (hint_clear_of_all Hok).
    - intros v Hv. apply (mm_ok_bounds _ _ Hmm Hv).
    - unfold mm_ok in Hmm. apply andb_true_iff in Hmm. tauto.
    - exact Hvma. }
  unfold placed_ok. repeat split; try lia.
  - apply (align_hint_aligned Hok), Hdiv.
  - apply (gap_free_no_overlap Hok _ _ _ Hmm Hclear).
  - exact Hclear.
Qed.

(** A result of the search other than [-ENOMEM] is a valid placement when
    the limits of the search lie between the floor and the top. *)
Lemma search_placed_ok (mm : mm_struct) (info : vm_unmapped_area_info) :
  mm_ok mm = true ->
  mmap_min_addr <= info_low_limit info ->
  info_high_limit info <= TASK_SIZE ->
  vm_unmapped_area mm info <> neg_ul ENOMEM ->
  placed_ok mm (info_length info) (vm_unmapped_area mm info).
Proof.
  intros Hmm Hlo Hhi Hr.
  destruct (vm_unmapped_area_cases Hok mm info) as [Hfit | [Hnone _]];
    [| contradiction].
  apply (gap_fits_iff Hok) in Hfit.
  destruct Hfit as (Hl & Hh & Hpa & _ & Hfree).
  pose proof (proj1 (gap_free_iff _ _ _) Hfree) as Hclear.
  unfold placed_ok. repeat split; try lia; try assumption.
  apply (gap_free_no_overlap Hok _ _ _ Hmm Hclear).
Qed.

End Placement.

(** * The claims *)

(** ** The ARM configuration is well formed *)

Lemma arm_words_ok : @words_ok arm.
Proof. split; vm_compute; try reflexivity; split; reflexivity. Qed.

Lemma arm_limits_ok : @limits_ok arm.
Proof. vm_compute. repeat split; discriminate || reflexivity. Qed.

Lemma arm_page_divides_SHMLBA : (@PAGE_SIZE arm | @SHMLBA arm).
Proof. exists 4. reflexivity. Qed.

(** ** The two scenarios of the spec, run on the model *)

(** One page, no hint, bottom-up from 0: placed at 0, and at the floor when
    the floor is [0x8000]. *)
Example scenario_bottom_up :
  fst (@arch_get_unmapped_area (scenario 0) (task_of mm_scenario_up) true None
         0 0x1000 0 0) = 0 /\
  fst (@arch_get_unmapped_area (scenario 0x8000) (task_of mm_scenario_up) true
         None 0 0x1000 0 0) = 0x8000.
Proof. split; vm_compute; reflexivity. Qed.

(** Two pages, top-down: the region that abuts the base is skipped and the
    pages are placed below it and its guard page. *)
Example scenario_top_down :
  @arch_get_unmapped_area_topdown (scenario 0) (task_of mm_scenario_down) true
     None 0 0x2000 0 0
  = (0x2effd000,
     [ev_vm_unmapped_area
        (@topdown_info (scenario 0) mm_scenario_down false 0x2000 0)]).
Proof. vm_compute. reflexivity. Qed.

(** ** C1: where placements land *)

(** C1 (amended).  For every request without [MAP_FIXED] in an address space
    whose regions are words in the order of their starts: when
    [arch_get_unmapped_area] returns a value [a] other than [-ENOMEM], [a]
    is a page boundary, [a >= mmap_min_addr], [a + len <= TASK_SIZE], the
    interval [[a, a+len)] meets no region, and it ends at or below the
    guard-adjusted start of every region that ends above [a]; the same
    holds for [arch_get_unmapped_area_topdown] when [mmap_base] lies
    between [mmap_min_addr] and [TASK_SIZE]. *)
Theorem placement_invariant {P : platform} (current : task_struct)
    (ratelimit : bool) (filp : option file) (addr len pgoff flags : Z) :
  words_ok -> limits_ok -> (PAGE_SIZE | SHMLBA) ->
  mm_ok (task_mm current) = true ->
  0 <= len ->
  Z.land flags MAP_FIXED = 0 ->
  (forall a,
      fst (arch_get_unmapped_area current ratelimit filp addr len pgoff flags)
      = a ->
      a <> neg_ul ENOMEM -> placed_ok (task_mm current) len a) /\
  (mmap_min_addr <= mm_mmap_base (task_mm current) <= TASK_SIZE ->
   forall a,
      fst (arch_get_unmapped_area_topdown current ratelimit filp addr len
                                          pgoff flags) = a ->
      a <> neg_ul ENOMEM -> placed_ok (task_mm current) len a).
Proof.
  intros Hok Hlim Hdiv Hmm Hlen Hfix.
  assert (Hf : nonzero (Z.land flags MAP_FIXED) = false)
    by (unfold nonzero; rewrite Hfix; reflexivity).
  set (mm := task_mm current) in *.
  set (d := do_align_of filp flags).
  destruct (len >? sub_ul TASK_SIZE mmap_min_addr) eqn:Hl.
  { (* the length test fails: both functions return -ENOMEM *)
    split; [| intros _]; intros a Ha Hne; exfalso; apply Hne; rewrite <- Ha.
    - rewrite (bottomup_too_long _ _ _ _ _ _ _ Hf Hl). reflexivity.
    - rewrite (topdown_too_long _ _ _ _ _ _ _ Hl). reflexivity. }
  destruct (nonzero addr && hint_ok mm (align_hint d addr pgoff) len) eqn:Hh.
  { (* the hint is accepted by both *)
    assert (Hhint : placed_ok mm len (align_hint d addr pgoff)).
    { apply andb_true_iff in Hh. destruct Hh as [_ Hh].
      apply (hint_placed_ok Hok Hlim); assumption. }
    split; [| intros _]; intros a Ha _; rewrite <- Ha.
    - rewrite (bottomup_hint _ _ _ _ _ _ _ Hf Hl Hh). exact Hhint.
    - rewrite (topdown_hint _ _ _ _ _ _ _ Hl Hf Hh). exact Hhint. }
  split.
  - (* bottom-up search above max(mmap_base, mmap_min_addr) *)
    intros a Ha Hne.
    destruct (bottomup_search current ratelimit filp addr len pgoff flags
                              Hf Hl Hh) as (diag & _ & Hrun).
    rewrite Hrun in Ha. simpl in Ha. subst a.
    apply (search_placed_ok Hok mm (bottomup_info mm d len pgoff));
      simpl; try assumption; lia.
  - (* top-down search below mmap_base, then the fall-back above it *)
    intros Hbase a Ha Hne.
    destruct (nonzero (Z.land (vm_unmapped_area mm (topdown_info mm d len pgoff))
                              (not_ul PAGE_MASK))) eqn:Hr.
    + destruct (topdown_search_fallback current ratelimit filp addr len pgoff
                  flags Hl Hf Hh Hr) as (diag & _ & Hrun).
      rewrite Hrun in Ha. simpl in Ha. subst a.
      apply (search_placed_ok Hok mm
               (fallback_info mm (topdown_info mm d len pgoff)));
        simpl; try assumption; lia.
    + destruct (topdown_search_found current ratelimit filp addr len pgoff
                  flags Hl Hf Hh Hr) as (diag & _ & Hrun).
      rewrite Hrun in Ha. simpl in Ha. subst a.
      apply (search_placed_ok Hok mm (topdown_info mm d len pgoff));
        simpl; try assumption; lia.
Qed.

(** A request without hint in the top-down address space lands just below
    the base, clear of the mapping. *)
Lemma placement_invariant_witness :
  @placed_ok arm mm_topdown 0x3000
     (fst (@arch_get_unmapped_area_topdown arm (task_of mm_topdown) true None
             0 0x3000 0 0)).
Proof.
  refine (proj2 (@placement_invariant arm (task_of mm_topdown) true None
                   0 0x3000 0 0 arm_words_ok arm_limits_ok
                   arm_page_divides_SHMLBA _ _ _) _ _ eq_refl _).
  - reflexivity.
  - discriminate.
  - reflexivity.
  - vm_compute. split; discriminate.
  - vm_compute. discriminate.
Defined.

(** C1 as stated fails for [MAP_FIXED]: the requested address is returned
    although it lies inside the mapping. *)
Lemma placement_invariant_counterexample :
  let a := fst (@arch_get_unmapped_area arm (task_of mm_legacy) true None
                  0x10001000 0x1000 0 (@MAP_FIXED arm)) in
  a = 0x10001000 /\
  a <> @neg_ul arm (@ENOMEM arm) /\ a <> @neg_ul arm (@EINVAL arm) /\
  ~ @placed_ok arm mm_legacy 0x1000 a.
Proof.
  cbv zeta.
  assert (E : fst (@arch_get_unmapped_area arm (task_of mm_legacy) true None
                     0x10001000 0x1000 0 (@MAP_FIXED arm)) = 0x10001000)
    by (vm_compute; reflexivity).
  rewrite E. split; [reflexivity |].
  split; [vm_compute; discriminate |].
  split; [vm_compute; discriminate |].
  intros (_ & _ & _ & Hfree & _).
  destruct (Hfree lib_vma (or_introl eq_refl)) as [H | H];
    vm_compute in H; apply H; reflexivity.
Qed.

(** ** C4 and C10: the colour-alignment macro *)

(** C4 (amended).  [COLOUR_ALIGN] is idempotent exactly at the page offsets
    of colour 0: for every address [a] and page offset [o],
    [COLOUR_ALIGN (COLOUR_ALIGN a o) o = COLOUR_ALIGN a o] holds if and only
    if [(o << PAGE_SHIFT) & (SHMLBA-1)] is 0.  For any other colour the
    second alignment moves the address one granule up. *)
Theorem COLOUR_ALIGN_idempotent_iff {P : platform} (a o : Z) :
  words_ok ->
  (COLOUR_ALIGN (COLOUR_ALIGN a o) o = COLOUR_ALIGN a o <-> colour o = 0).
Proof.
  intros Hok. rewrite (COLOUR_ALIGN_twice Hok).
  destruct (Z.eqb_spec (colour o) 0) as [Hz | Hnz]; [tauto |].
  split; [| tauto]. intros Heq. exfalso.
  exact (wrap_add_SHMLBA_neq Hok _ (COLOUR_ALIGN_ulong Hok a o) Heq).
Qed.

(** Page offset 4 has colour 0 on ARM: aligning twice is aligning once. *)
Lemma COLOUR_ALIGN_idempotent_iff_witness :
  @COLOUR_ALIGN arm (@COLOUR_ALIGN arm 0x12345 4) 4 = @COLOUR_ALIGN arm 0x12345 4.
Proof.
  apply (proj2 (@COLOUR_ALIGN_idempotent_iff arm 0x12345 4 arm_words_ok)).
  reflexivity.
Defined.

(** C4 as stated fails at page offset 1: the address [0x5000] is aligned to
    [0x9000], and aligning [0x9000] again gives [0xd000]. *)
Lemma COLOUR_ALIGN_idempotent_counterexample :
  @COLOUR_ALIGN arm 0x5000 1 = 0x9000 /\
  @COLOUR_ALIGN arm (@COLOUR_ALIGN arm 0x5000 1) 1 = 0xd000 /\
  @COLOUR_ALIGN arm (@COLOUR_ALIGN arm 0x5000 1) 1 <> @COLOUR_ALIGN arm 0x5000 1.
Proof. vm_compute. repeat split; discriminate. Qed.

(** C10.  For every address [a] and page offset [o]: when the addition in
    the macro does not overflow, [COLOUR_ALIGN a o >= a]; the result is
    congruent to [o << PAGE_SHIFT] modulo [SHMLBA]; and it is a page
    boundary whenever [SHMLBA] is a multiple of the page size. *)
Theorem COLOUR_ALIGN_properties {P : platform} (a o : Z) :
  words_ok -> ulong a ->
  (a + SHMLBA - 1 < 2 ^ BITS_PER_LONG -> a <= COLOUR_ALIGN a o) /\
  COLOUR_ALIGN a o mod SHMLBA = Z.shiftl o PAGE_SHIFT mod SHMLBA /\
  ((PAGE_SIZE | SHMLBA) -> COLOUR_ALIGN a o mod PAGE_SIZE = 0).
Proof.
  intros Hok Ha. split; [| split].
  - apply (COLOUR_ALIGN_ge Hok), Ha.
  - apply (COLOUR_ALIGN_congruent Hok).
  - apply (COLOUR_ALIGN_page_aligned Hok).
Qed.

Lemma COLOUR_ALIGN_properties_witness :
  0x12345 <= @COLOUR_ALIGN arm 0x12345 3 /\
  @COLOUR_ALIGN arm 0x12345 3 mod 16384 = Z.shiftl 3 12 mod 16384 /\
  @COLOUR_ALIGN arm 0x12345 3 mod 4096 = 0.
Proof.
  destruct (@COLOUR_ALIGN_properties arm 0x12345 3 arm_words_ok)
    as (Hge & Hcong & Hpage).
  - vm_compute. split; [discriminate | reflexivity].
  - split; [| split].
    + apply Hge. reflexivity.
    + exact Hcong.
    + apply Hpage. exact arm_page_divides_SHMLBA.
Defined.

(** ** C3 and C5: [MAP_FIXED] and the length test *)

Lemma sub_mod_zero_iff (x y m : Z) :
  0 < m -> ((x - y) mod m = 0 <-> x mod m = y mod m).
Proof.
  intros Hm. split; intros H.
  - apply Z.mod_divide in H; [| lia]. destruct H as [k Hk].
    replace x with (y + k * m) by lia. apply Z.mod_add. lia.
  - rewrite Zminus_mod, H, Z.sub_diag. apply Z.mod_0_l. lia.
Qed.

(** The address test of the [MAP_FIXED] branch is a test of congruence
    modulo [SHMLBA]. *)
Lemma fixed_test_congruent {P : platform} (addr pgoff : Z) :
  words_ok ->
  (Z.land (sub_ul addr (shl_ul pgoff PAGE_SHIFT)) (sub_ul SHMLBA 1) = 0 <->
   congruent_colour addr pgoff).
Proof.
  intros Hok. unfold congruent_colour.
  pose proof (SHMLBA_log2 Hok) as Hk.
  assert (Hpos : 0 < SHMLBA) by (destruct Hok; lia).
  rewrite (shmlba_low_bits Hok), land_ul_ones by lia.
  replace (2 ^ Z.log2 SHMLBA) with SHMLBA by (destruct Hok; assumption).
  unfold sub_ul, shl_ul. rewrite (wrap_mod_SHMLBA Hok).
  rewrite sub_mod_zero_iff, (wrap_mod_SHMLBA Hok) by lia.
  rewrite Z.shiftl_mul_pow2 by (destruct Hok; lia).
  rewrite <- (PAGE_SIZE_eq Hok). reflexivity.
Qed.

Lemma fixed_misaligned_iff {P : platform} (addr pgoff flags : Z) :
  words_ok ->
  (fixed_misaligned addr pgoff flags = true <->
   cache_is_vipt_aliasing = true /\ Z.land flags MAP_SHARED <> 0 /\
   ~ congruent_colour addr pgoff).
Proof.
  intros Hok. unfold fixed_misaligned, nonzero.
  rewrite !andb_true_iff, !negb_true_iff, !Z.eqb_neq.
  rewrite (fixed_test_congruent addr pgoff Hok). tauto.
Qed.

(** C3 (amended).  For every request with [MAP_FIXED], in
    [arch_get_unmapped_area], and in [arch_get_unmapped_area_topdown] once
    the length test has passed: the call fails with [-EINVAL] exactly when
    the caches alias, [MAP_SHARED] is set and [addr] is not congruent to
    [pgoff * PAGE_SIZE] modulo [SHMLBA]; in every other case, that of a
    private file mapping included, [addr] is returned unchanged, without a
    search and without a look at the regions or the limits. *)
Theorem fixed_request {P : platform} (current : task_struct)
    (ratelimit : bool) (filp : option file) (addr len pgoff flags : Z) :
  words_ok -> limits_ok ->
  Z.land flags MAP_FIXED <> 0 ->
  let misaligned :=
    cache_is_vipt_aliasing = true /\ Z.land flags MAP_SHARED <> 0 /\
    ~ congruent_colour addr pgoff in
  (misaligned ->
   arch_get_unmapped_area current ratelimit filp addr len pgoff flags
   = (neg_ul EINVAL, []) /\
   (len <= TASK_SIZE - mmap_min_addr ->
    arch_get_unmapped_area_topdown current ratelimit filp addr len pgoff flags
    = (neg_ul EINVAL, []))) /\
  (~ misaligned ->
   arch_get_unmapped_area current ratelimit filp addr len pgoff flags
   = (addr, []) /\
   (len <= TASK_SIZE - mmap_min_addr ->
    arch_get_unmapped_area_topdown current ratelimit filp addr len pgoff flags
    = (addr, []))).
Proof.
  intros Hok Hlim Hfix misaligned.
  assert (Hf : nonzero (Z.land flags MAP_FIXED) = true)
    by (unfold nonzero; apply negb_true_iff, Z.eqb_neq, Hfix).
  pose proof (fixed_misaligned_iff addr pgoff flags Hok) as Hiff.
  fold misaligned in Hiff.
  rewrite (bottomup_fixed current ratelimit filp addr len pgoff flags Hf).
  split; intros Hm.
  - apply Hiff in Hm. rewrite Hm. split; [reflexivity |].
    intros Hlen. apply (len_test_iff len Hlim) in Hlen.
    rewrite (topdown_fixed current ratelimit filp addr len pgoff flags Hlen Hf).
    rewrite Hm. reflexivity.
  - destruct (fixed_misaligned addr pgoff flags) eqn:E;
      [exfalso; apply Hm, Hiff; reflexivity |].
    split; [reflexivity |].
    intros Hlen. apply (len_test_iff len Hlim) in Hlen.
    rewrite (topdown_fixed current ratelimit filp addr len pgoff flags Hlen Hf).
    rewrite E. reflexivity.
Qed.

(** A shared fixed mapping of page offset 0 at [0x5000] is refused, in an
    address space where that page is free or not. *)
Lemma fixed_request_witness :
  @arch_get_unmapped_area arm (task_of mm_legacy) true None
     0x5000 0x1000 0 (Z.lor (@MAP_FIXED arm) (@MAP_SHARED arm))
  = (@neg_ul arm (@EINVAL arm), []) /\
  @arch_get_unmapped_area_topdown arm (task_of mm_topdown) true None
     0x5000 0x1000 0 (Z.lor (@MAP_FIXED arm) (@MAP_SHARED arm))
  = (@neg_ul arm (@EINVAL arm), []).
Proof.
  split.
  - refine (proj1 (proj1 (@fixed_request arm (task_of mm_legacy) true None
                            0x5000 0x1000 0 _ arm_words_ok arm_limits_ok _) _)).
    + vm_compute. discriminate.
    + repeat split; vm_compute; discriminate.
  - refine (proj2 (proj1 (@fixed_request arm (task_of mm_topdown) true None
                            0x5000 0x1000 0 _ arm_words_ok arm_limits_ok _) _) _).
    + vm_compute. discriminate.
    + repeat split; vm_compute; discriminate.
    + vm_compute. discriminate.
Defined.

(** C3 as stated fails for a private file mapping: colour alignment is
    required (the caches alias and the mapping is backed by a file), the
    address [0x5000] has not the colour of page offset 0, and both functions
    return it. *)
Lemma fixed_request_counterexample :
  @do_align_of arm (Some (File 1)) (@MAP_FIXED arm) = true /\
  ~ @congruent_colour arm 0x5000 0 /\
  fst (@arch_get_unmapped_area arm (task_of mm_legacy) true (Some (File 1))
         0x5000 0x1000 0 (@MAP_FIXED arm)) = 0x5000 /\
  fst (@arch_get_unmapped_area_topdown arm (task_of mm_topdown) true
         (Some (File 1)) 0x5000 0x1000 0 (@MAP_FIXED arm)) = 0x5000 /\
  0x5000 <> @neg_ul arm (@EINVAL arm).
Proof. vm_compute. repeat split; discriminate. Qed.

(** C5 (amended).  For every request with [len > TASK_SIZE - mmap_min_addr]:
    [arch_get_unmapped_area_topdown] tests the length first and fails with
    [-ENOMEM] whatever the flags; [arch_get_unmapped_area] handles
    [MAP_FIXED] first, so it fails with [-ENOMEM] for every request without
    [MAP_FIXED], and answers a [MAP_FIXED] request as for any other
    length. *)
Theorem length_precondition {P : platform} (current : task_struct)
    (ratelimit : bool) (filp : option file) (addr len pgoff flags : Z) :
  limits_ok ->
  TASK_SIZE - mmap_min_addr < len ->
  fst (arch_get_unmapped_area_topdown current ratelimit filp addr len pgoff
                                      flags) = neg_ul ENOMEM /\
  (Z.land flags MAP_FIXED = 0 ->
   fst (arch_get_unmapped_area current ratelimit filp addr len pgoff flags)
   = neg_ul ENOMEM) /\
  (Z.land flags MAP_FIXED <> 0 ->
   arch_get_unmapped_area current ratelimit filp addr len pgoff flags
   = (if fixed_misaligned addr pgoff flags then neg_ul EINVAL else addr, [])).
Proof.
  intros Hlim Hlen.
  assert (Hl : (len >? sub_ul TASK_SIZE mmap_min_addr) = true).
  { destruct (len >? sub_ul TASK_SIZE mmap_min_addr) eqn:E; [reflexivity |].
    apply (len_test_iff len Hlim) in E. lia. }
  split; [| split].
  - rewrite (topdown_too_long current ratelimit filp addr len pgoff flags Hl).
    reflexivity.
  - intros Hfix.
    assert (Hf : nonzero (Z.land flags MAP_FIXED) = false)
      by (unfold nonzero; rewrite Hfix; reflexivity).
    rewrite (bottomup_too_long current ratelimit filp addr len pgoff flags Hf Hl).
    reflexivity.
  - intros Hfix. apply bottomup_fixed.
    unfold nonzero. apply negb_true_iff, Z.eqb_neq, Hfix.
Qed.

Lemma length_precondition_witness :
  fst (@arch_get_unmapped_area_topdown arm (task_of mm_topdown) true None
         0 0xbf000000 0 (@MAP_FIXED arm)) = @neg_ul arm (@ENOMEM arm) /\
  fst (@arch_get_unmapped_area arm (task_of mm_legacy) true None
         0 0xbf000000 0 0) = @neg_ul arm (@ENOMEM arm).
Proof.
  split.
  - refine (proj1 (@length_precondition arm (task_of mm_topdown) true None
                     0 0xbf000000 0 _ arm_limits_ok _)).
    reflexivity.
  - refine (proj1 (proj2 (@length_precondition arm (task_of mm_legacy) true None
                            0 0xbf000000 0 0 arm_limits_ok _)) _);
      reflexivity.
Defined.

(** C5 as stated fails in [arch_get_unmapped_area] for [MAP_FIXED]: a length
    of the whole address range is beyond [TASK_SIZE - mmap_min_addr], and
    the requested address is returned. *)
Lemma length_precondition_counterexample :
  @TASK_SIZE arm - @mmap_min_addr arm < 0xbf000000 /\
  fst (@arch_get_unmapped_area arm (task_of mm_legacy) true None
         0x10000 0xbf000000 0 (@MAP_FIXED arm)) = 0x10000 /\
  0x10000 <> @neg_ul arm (@ENOMEM arm).
Proof. vm_compute. repeat split; discriminate. Qed.

(** ** C6: the hint path *)

(** C6 (amended).  For every request without [MAP_FIXED] and with a hint
    other than 0, let [h] be the hint after [COLOUR_ALIGN] (when the caches
    alias and the mapping is backed by a file or shared) or after
    [PAGE_ALIGN] (otherwise).  Each of the two functions returns [h] at
    once, with no call of the search and no message, exactly when
    [h <= TASK_SIZE - len], [h >= mmap_min_addr], and either no region ends
    above [h], or the first region that ends above [h] (which may contain
    [h]) has its guard-adjusted start at or above [h + len]. *)
Theorem hint_path {P : platform} (current : task_struct)
    (ratelimit : bool) (filp : option file) (addr len pgoff flags : Z) :
  words_ok -> limits_ok -> 0 < ENOMEM < PAGE_SIZE -> (PAGE_SIZE | SHMLBA) ->
  0 <= len ->
  Z.land flags MAP_FIXED = 0 ->
  addr <> 0 ->
  let h := if do_align_of filp flags then COLOUR_ALIGN addr pgoff
           else PAGE_ALIGN addr in
  let accepted :=
    h <= TASK_SIZE - len /\ mmap_min_addr <= h /\
    match find_vma (task_mm current) h with
    | None => True
    | Some v => h + len <= vm_start_gap v
    end in
  (arch_get_unmapped_area current ratelimit filp addr len pgoff flags
   = (h, []) <-> accepted) /\
  (arch_get_unmapped_area_topdown current ratelimit filp addr len pgoff flags
   = (h, []) <-> accepted).
Proof.
  intros Hok Hlim Herr Hdiv Hlen0 Hfix Haddr h accepted.
  assert (Hf : nonzero (Z.land flags MAP_FIXED) = false)
    by (unfold nonzero; rewrite Hfix; reflexivity).
  assert (Hnz : nonzero addr = true)
    by (unfold nonzero; apply negb_true_iff, Z.eqb_neq, Haddr).
  set (mm := task_mm current) in *.
  change h with (align_hint (do_align_of filp flags) addr pgoff) in *.
  set (d := do_align_of filp flags) in *.
  pose proof (align_hint_ulong Hok d addr pgoff) as Hu.
  pose proof (align_hint_aligned Hok d addr pgoff Hdiv) as Hpa.
  destruct (len >? sub_ul TASK_SIZE mmap_min_addr) eqn:Hl.
  { (* too long: -ENOMEM, which is no page boundary, and no hint fits *)
    assert (Hno : ~ accepted).
    { intros (H1 & H2 & _).
      assert (E : (len >? sub_ul TASK_SIZE mmap_min_addr) = false)
        by (apply (len_test_iff len Hlim); lia).
      congruence. }
    rewrite (bottomup_too_long current ratelimit filp addr len pgoff flags Hf Hl).
    rewrite (topdown_too_long current ratelimit filp addr len pgoff flags Hl).
    split; (split; [intros E | intros Ha; contradiction]);
      injection E as E _; exfalso;
      apply (neg_errno_not_aligned Hok _ Herr); rewrite E; exact Hpa. }
  pose proof (proj1 (len_test_iff len Hlim) Hl) as Hlen.
  pose proof (hint_ok_iff mm (align_hint d addr pgoff) len Hlim Hu
                          (conj Hlen0 Hlen)) as Hiff.
  fold accepted in Hiff.
  destruct (hint_ok mm (align_hint d addr pgoff) len) eqn:Hh.
  - (* accepted: both return the hint with an empty log *)
    assert (Hc : nonzero addr && hint_ok mm (align_hint d addr pgoff) len = true)
      by (rewrite Hnz, Hh; reflexivity).
    rewrite (bottomup_hint current ratelimit filp addr len pgoff flags Hf Hl Hc).
    rewrite (topdown_hint current ratelimit filp addr len pgoff flags Hl Hf Hc).
    split; (split; [intros _; apply Hiff | intros _]; reflexivity).
  - (* rejected: both call the search, so the log is not empty *)
    assert (Hc : nonzero addr && hint_ok mm (align_hint d addr pgoff) len = false)
      by (rewrite Hnz, Hh; reflexivity).
    assert (Hno : ~ accepted) by (intros Ha; apply Hiff in Ha; discriminate).
    destruct (bottomup_search current ratelimit filp addr len pgoff flags
                              Hf Hl Hc) as (diag & _ & Hup).
    split.
    + rewrite Hup. split; [intros E; discriminate E | intros Ha; contradiction].
    + destruct (nonzero (Z.land (vm_unmapped_area mm (topdown_info mm d len pgoff))
                                (not_ul PAGE_MASK))) eqn:Hr.
      * destruct (topdown_search_fallback current ratelimit filp addr len pgoff
                    flags Hl Hf Hc Hr) as (diag' & _ & Hdown).
        rewrite Hdown.
        split; [intros E; discriminate E | intros Ha; contradiction].
      * destruct (topdown_search_found current ratelimit filp addr len pgoff
                    flags Hl Hf Hc Hr) as (diag' & _ & Hdown).
        rewrite Hdown.
        split; [intros E; discriminate E | intros Ha; contradiction].
Qed.

(** A hint two pages below the mapping, for one page: returned as it is. *)
Lemma hint_path_witness :
  @arch_get_unmapped_area arm (task_of mm_legacy) true None
     0x0fffd001 0x1000 0 0 = (0x0fffe000, []) /\
  @arch_get_unmapped_area_topdown arm (task_of mm_topdown) true None
     0x0fffd001 0x1000 0 0 = (0x0fffe000, []).
Proof.
  split.
  - refine (proj2 (proj1 (@hint_path arm (task_of mm_legacy) true None
                            0x0fffd001 0x1000 0 0 arm_words_ok arm_limits_ok
                            _ arm_page_divides_SHMLBA _ _ _)) _).
    + vm_compute. split; reflexivity.
    + discriminate.
    + reflexivity.
    + discriminate.
    + vm_compute. repeat split; discriminate.
  - refine (proj2 (proj2 (@hint_path arm (task_of mm_topdown) true None
                            0x0fffd001 0x1000 0 0 arm_words_ok arm_limits_ok
                            _ arm_page_divides_SHMLBA _ _ _)) _).
    + vm_compute. split; reflexivity.
    + discriminate.
    + reflexivity.
    + discriminate.
    + vm_compute. repeat split; discriminate.
Defined.

(** C6 as stated fails for a hint inside a mapping.  The hint [0x10001000]
    lies in the second page of the mapping [[0x10000000, 0x10002000)]: it
    is a page boundary within the limits and no region starts at or after
    it, yet both functions go on to the search and return another
    address. *)
Lemma hint_path_counterexample :
  let h := @PAGE_ALIGN arm 0x10001000 in
  let up := @arch_get_unmapped_area arm (task_of mm_legacy) true None
              0x10001000 0x1000 0 0 in
  let down := @arch_get_unmapped_area_topdown arm (task_of mm_topdown) true None
                0x10001000 0x1000 0 0 in
  h = 0x10001000 /\
  h <= @TASK_SIZE arm - 0x1000 /\ @mmap_min_addr arm <= h /\
  (forall v, In v (mm_mmap mm_legacy) -> ~ h <= vm_start v) /\
  fst up = 0x40000000 /\ searched (snd up) = true /\
  fst down = 0xb6fff000 /\ searched (snd down) = true.
Proof.
  cbv zeta.
  assert (Eh : @PAGE_ALIGN arm 0x10001000 = 0x10001000) by (vm_compute; reflexivity).
  rewrite Eh.
  split; [reflexivity |].
  split; [vm_compute; discriminate |].
  split; [vm_compute; discriminate |].
  split; [intros v [<- | []] H; vm_compute in H; apply H; reflexivity |].
  vm_compute. repeat split; reflexivity.
Qed.

(** ** C2: the fall-back of the top-down search *)

(** A fully occupied range holds no gap: no address fits a search inside
    it. *)
Lemma occupied_no_fit {P : platform} (mm : mm_struct)
    (info : vm_unmapped_area_info) (a : Z) :
  words_ok -> mm_ok mm = true -> 0 < info_length info ->
  occupied mm (info_low_limit info) (info_high_limit info) ->
  gap_fits mm info a = false.
Proof.
  intros Hok Hmm Hlen Hocc.
  destruct (gap_fits mm info a) eqn:Hfit; [| reflexivity]. exfalso.
  apply (gap_fits_iff Hok) in Hfit.
  destruct Hfit as (Hlo & Hhi & _ & _ & Hfree).
  destruct (Hocc a ltac:(lia)) as (v & Hv & Hin).
  pose proof (proj1 (gap_free_iff _ _ _) Hfree v Hv) as Hclear.
  destruct (mm_ok_bounds _ _ Hmm Hv) as [Hs _].
  pose proof (vm_start_gap_le Hok v Hs). lia.
Qed.

(** A log with a search comes from the search path. *)
Lemma topdown_log_search {P : platform} (current : task_struct)
    (ratelimit : bool) (filp : option file) (addr len pgoff flags : Z)
    (info : vm_unmapped_area_info) :
  Z.land flags MAP_FIXED = 0 ->
  In (ev_vm_unmapped_area info)
     (snd (arch_get_unmapped_area_topdown current ratelimit filp addr len
                                          pgoff flags)) ->
  (len >? sub_ul TASK_SIZE mmap_min_addr) = false /\
  nonzero addr
  && hint_ok (task_mm current)
             (align_hint (do_align_of filp flags) addr pgoff) len = false.
Proof.
  intros Hfix Hin.
  assert (Hf : nonzero (Z.land flags MAP_FIXED) = false)
    by (unfold nonzero; rewrite Hfix; reflexivity).
  destruct (len >? sub_ul TASK_SIZE mmap_min_addr) eqn:Hl.
  { rewrite (topdown_too_long current ratelimit filp addr len pgoff flags Hl)
      in Hin.
    exfalso. destruct ratelimit; simpl in Hin; [| exact Hin].
    destruct Hin as [E | []]. discriminate E. }
  split; [reflexivity |].
  destruct (nonzero addr
            && hint_ok (task_mm current)
                       (align_hint (do_align_of filp flags) addr pgoff) len)
    eqn:Hh; [| reflexivity].
  rewrite (topdown_hint current ratelimit filp addr len pgoff flags Hl Hf Hh)
    in Hin.
  destruct Hin.
Qed.

(** C2.  For every request without [MAP_FIXED] that reaches the top-down
    search: the search is over [[max(FIRST_USER_ADDRESS, mmap_min_addr),
    mmap_base)]; when the value it returns has low bits set,
    [arch_get_unmapped_area_topdown] next searches bottom-up over
    [[mmap_base, TASK_SIZE)] and returns what that search returns, so it
    returns [-ENOMEM] only if no address fits the second search either.  In
    particular, when the range below [mmap_base] is fully occupied and some
    address fits in [[mmap_base, TASK_SIZE)], the call returns an address
    that fits there. *)
Theorem topdown_fallback {P : platform} (current : task_struct)
    (ratelimit : bool) (filp : option file) (addr len pgoff flags : Z) :
  words_ok -> 0 < ENOMEM < PAGE_SIZE ->
  Z.land flags MAP_FIXED = 0 ->
  let mm := task_mm current in
  let run :=
    arch_get_unmapped_area_topdown current ratelimit filp addr len pgoff flags in
  let td := topdown_info mm (do_align_of filp flags) len pgoff in
  let fb := fallback_info mm td in
  In (ev_vm_unmapped_area td) (snd run) ->
  (info_flags td = VM_UNMAPPED_AREA_TOPDOWN /\
   info_low_limit td = Z.max FIRST_USER_ADDRESS mmap_min_addr /\
   info_high_limit td = mm_mmap_base mm /\ info_length td = len) /\
  (info_flags fb = 0 /\ info_low_limit fb = mm_mmap_base mm /\
   info_high_limit fb = TASK_SIZE /\ info_length fb = len /\
   info_align_mask fb = info_align_mask td /\
   info_align_offset fb = info_align_offset td) /\
  (Z.land (vm_unmapped_area mm td) (not_ul PAGE_MASK) <> 0 ->
   (exists diag,
       searched diag = false /\
       snd run = ev_vm_unmapped_area td :: ev_vm_unmapped_area fb :: diag) /\
   fst run = vm_unmapped_area mm fb /\
   (fst run = neg_ul ENOMEM -> forall a, gap_fits mm fb a = false)) /\
  (mm_ok mm = true -> 0 < len ->
   occupied mm (Z.max FIRST_USER_ADDRESS mmap_min_addr) (mm_mmap_base mm) ->
   (exists a, gap_fits mm fb a = true) ->
   fst run <> neg_ul ENOMEM /\
   page_aligned (fst run) /\
   mm_mmap_base mm <= fst run /\ fst run + len <= TASK_SIZE /\
   gap_free mm (fst run) len = true).
Proof.
  intros Hok Herr Hfix mm run td fb Hin.
  assert (Hf : nonzero (Z.land flags MAP_FIXED) = false)
    by (unfold nonzero; rewrite Hfix; reflexivity).
  destruct (topdown_log_search current ratelimit filp addr len pgoff flags td
                               Hfix Hin) as [Hl Hh].
  (* what a failed first search leads to *)
  assert (Hfall :
    vm_unmapped_area mm td = neg_ul ENOMEM ->
    (exists diag,
        searched diag = false /\
        snd run = ev_vm_unmapped_area td :: ev_vm_unmapped_area fb :: diag) /\
    fst run = vm_unmapped_area mm fb).
  { intros Hfail. apply (search_failed_iff Hok mm td Herr) in Hfail.
    destruct (topdown_search_fallback current ratelimit filp addr len pgoff
                flags Hl Hf Hh Hfail) as (diag & Hd & Hrun).
    unfold run. rewrite Hrun. split; [exists diag; split; [exact Hd |] |];
      reflexivity. }
  split; [repeat split |]. split; [repeat split |]. split.
  - intros Hbits.
    assert (Hfail : vm_unmapped_area mm td = neg_ul ENOMEM).
    { apply (search_failed_iff Hok mm td Herr). unfold nonzero.
      apply negb_true_iff, Z.eqb_neq, Hbits. }
    destruct (Hfall Hfail) as [Hlog Hres]. repeat split; try assumption.
    intros He. rewrite Hres in He.
    destruct (vm_unmapped_area_cases Hok mm fb) as [Hfit | [_ Hnone]];
      [| exact Hnone].
    exfalso. apply (gap_fits_iff Hok) in Hfit.
    destruct Hfit as (_ & _ & Hpa & _). rewrite He in Hpa.
    exact (neg_errno_not_aligned Hok _ Herr Hpa).
  - intros Hmm Hlen Hocc (a & Ha).
    assert (Hfail : vm_unmapped_area mm td = neg_ul ENOMEM).
    { destruct (vm_unmapped_area_cases Hok mm td) as [Hfit | [Hnone _]];
        [| exact Hnone].
      rewrite (occupied_no_fit mm td _ Hok Hmm) in Hfit;
        [discriminate | exact Hlen | exact Hocc]. }
    destruct (Hfall Hfail) as [_ Hres]. rewrite Hres.
    destruct (vm_unmapped_area_cases Hok mm fb) as [Hfit | [_ Hnone]];
      [| rewrite Hnone in Ha; discriminate].
    apply (gap_fits_iff Hok) in Hfit.
    destruct Hfit as (Hlo & Hhi & Hpa & _ & Hfree).
    simpl in Hlo, Hhi, Hfree.
    repeat split; try assumption.
    intros He. rewrite He in Hpa.
    exact (neg_errno_not_aligned Hok _ Herr Hpa).
Qed.

(** The range below the base is one mapping; two pages are asked for and
    are found at the base. *)
Lemma topdown_fallback_witness :
  let run := @arch_get_unmapped_area_topdown arm (task_of mm_crowded) true None
               0 0x2000 0 0 in
  fst run <> @neg_ul arm (@ENOMEM arm) /\
  @page_aligned arm (fst run) /\
  mm_mmap_base mm_crowded <= fst run /\ fst run + 0x2000 <= @TASK_SIZE arm /\
  @gap_free arm mm_crowded (fst run) 0x2000 = true.
Proof.
  refine (proj2 (proj2 (proj2
            (@topdown_fallback arm (task_of mm_crowded) true None 0 0x2000 0 0
               arm_words_ok _ _ _))) _ _ _ _).
  - vm_compute. split; reflexivity.
  - reflexivity.
  - vm_compute. left. reflexivity.
  - reflexivity.
  - reflexivity.
  - intros x Hx. exists {| vm_start := 0x1000; vm_end := 0x20000 |}.
    split; [left; reflexivity |].
    change (Z.max (@FIRST_USER_ADDRESS arm) (@mmap_min_addr arm)) with 0x2000 in Hx.
    change (mm_mmap_base (task_mm (task_of mm_crowded))) with 0x20000 in Hx.
    simpl. lia.
  - exists 0x20000. vm_compute. reflexivity.
Defined.

(** ** C7 and C8: the layout *)

Lemma sub_ul_sub_ul {P : platform} (a b c : Z) :
  sub_ul (sub_ul a b) c = wrap (a - b - c).
Proof. unfold sub_ul, wrap. apply Zminus_mod_idemp_l. Qed.

(** C7 (amended).  For every stack limit and every randomization value [r],
    [mmap_base] returns [PAGE_ALIGN (TASK_SIZE - gap - r)] (in word
    arithmetic), where [gap] is the stack limit clamped into
    [[MIN_GAP, MAX_GAP]], [MIN_GAP] is 128 MiB exactly, and [MAX_GAP] is
    [TASK_SIZE / 6 * 5] with the division truncated before the
    multiplication: at most five sixths of [TASK_SIZE], short of it by
    [5 * (TASK_SIZE mod 6) / 6], and equal to it exactly when [TASK_SIZE] is
    a multiple of 6. *)
Theorem mmap_base_spec {P : platform} (current : task_struct) (r : Z) :
  0 <= TASK_SIZE < 2 ^ BITS_PER_LONG ->
  128 * 1024 * 1024 < 2 ^ BITS_PER_LONG ->
  MIN_GAP <= MAX_GAP ->
  MIN_GAP = 128 * 1024 * 1024 /\
  MAX_GAP = TASK_SIZE / 6 * 5 /\
  6 * MAX_GAP = 5 * TASK_SIZE - 5 * (TASK_SIZE mod 6) /\
  (6 * MAX_GAP = 5 * TASK_SIZE <-> TASK_SIZE mod 6 = 0) /\
  stack_gap current = Z.max MIN_GAP (Z.min (rlimit_stack current) MAX_GAP) /\
  mmap_base current r = PAGE_ALIGN (wrap (TASK_SIZE - stack_gap current - r)).
Proof.
  intros Ht Hw Hle.
  assert (Hmin : MIN_GAP = 128 * 1024 * 1024)
    by (unfold MIN_GAP; apply wrap_small; unfold ulong; lia).
  assert (Hmax : MAX_GAP = TASK_SIZE / 6 * 5).
  { unfold MAX_GAP. apply wrap_small. unfold ulong.
    pose proof (Z.div_mod TASK_SIZE 6 ltac:(lia)).
    pose proof (Z.mod_pos_bound TASK_SIZE 6 ltac:(lia)). lia. }
  pose proof (Z.div_mod TASK_SIZE 6 ltac:(lia)) as Hdm.
  pose proof (Z.mod_pos_bound TASK_SIZE 6 ltac:(lia)) as Hr.
  repeat split; try assumption; try lia.
  - unfold stack_gap.
    destruct (Z.ltb_spec (rlimit_stack current) MIN_GAP);
      [| destruct (Z.gtb_spec (rlimit_stack current) MAX_GAP)]; lia.
  - unfold mmap_base. rewrite sub_ul_sub_ul. reflexivity.
Qed.

(** The default stack limit of 8 MiB is raised to [MIN_GAP]: the base is
    128 MiB below [TASK_SIZE]. *)
Lemma mmap_base_spec_witness :
  @mmap_base arm (task_of mm_topdown) 0 = 0xb7000000 /\
  @MIN_GAP arm = 134217728 /\ @MAX_GAP arm = 2670373545.
Proof.
  destruct (@mmap_base_spec arm (task_of mm_topdown) 0)
    as (Hmin & Hmax & _ & _ & Hgap & Hbase).
  - vm_compute. split; [discriminate | reflexivity].
  - reflexivity.
  - vm_compute. discriminate.
  - rewrite Hbase, Hgap, Hmin, Hmax. repeat split; reflexivity.
Defined.

(** C7 as stated fails for the ARM [TASK_SIZE] of [0xbf000000], which is no
    multiple of 6: [MAX_GAP] is 2670373545, one less than five sixths of
    [TASK_SIZE] rounded down; a stack limit of 2.5 GiB is clamped to it; and
    for the randomization value 1366 the base is one page above the one
    computed from five sixths of [TASK_SIZE]. *)
Lemma mmap_base_spec_counterexample :
  @MAX_GAP arm = 2670373545 /\
  5 * @TASK_SIZE arm / 6 = 2670373546 /\
  6 * @MAX_GAP arm <> 5 * @TASK_SIZE arm /\
  @stack_gap arm task_big_stack = 2670373545 /\
  @mmap_base arm task_big_stack 1366 = 0x1fd56000 /\
  @PAGE_ALIGN arm (@TASK_SIZE arm - 5 * @TASK_SIZE arm / 6 - 1366) = 0x1fd55000.
Proof. vm_compute. repeat split; discriminate. Qed.

(** C8.  [arch_pick_mmap_layout] takes the legacy layout if and only if the
    personality has [ADDR_COMPAT_LAYOUT], or the stack limit is
    [RLIM_INFINITY], or [sysctl_legacy_va_layout] is set.  In the legacy
    layout it sets [mmap_base] to [TASK_UNMAPPED_BASE] plus the random
    factor and the placement function to [arch_get_unmapped_area];
    otherwise it sets [mmap_base] to what [mmap_base] computes from the
    random factor and the placement function to
    [arch_get_unmapped_area_topdown].  The random factor is
    [arch_mmap_rnd()] when the task has [PF_RANDOMIZE] and 0 otherwise. *)
Theorem arch_pick_mmap_layout_spec {P : platform} (current : task_struct)
    (random : Z) (mm : mm_struct) :
  let legacy :=
    Z.land (personality current) ADDR_COMPAT_LAYOUT <> 0 \/
    rlimit_stack current = RLIM_INFINITY \/
    sysctl_legacy_va_layout <> 0 in
  let random_factor :=
    if Z.land (task_flags current) PF_RANDOMIZE =? 0 then 0
    else arch_mmap_rnd random in
  let mm' := arch_pick_mmap_layout current random mm in
  (mmap_is_legacy current <> 0 <-> legacy) /\
  (mm_get_unmapped_area mm' = fn_arch_get_unmapped_area <-> legacy) /\
  (legacy ->
   mm_mmap_base mm' = add_ul TASK_UNMAPPED_BASE random_factor /\
   (ulong (TASK_UNMAPPED_BASE + random_factor) ->
    mm_mmap_base mm' = TASK_UNMAPPED_BASE + random_factor) /\
   mm_get_unmapped_area mm' = fn_arch_get_unmapped_area) /\
  (~ legacy ->
   mm_mmap_base mm' = mmap_base current random_factor /\
   mm_get_unmapped_area mm' = fn_arch_get_unmapped_area_topdown) /\
  mm_mmap mm' = mm_mmap mm.
Proof.
  intros legacy random_factor mm'.
  assert (Hleg : mmap_is_legacy current <> 0 <-> legacy).
  { unfold mmap_is_legacy, legacy, nonzero.
    destruct (Z.eqb_spec (Z.land (personality current) ADDR_COMPAT_LAYOUT) 0)
      as [Hp | Hp]; simpl.
    - destruct (Z.eqb_spec (rlimit_stack current) RLIM_INFINITY) as [Hr | Hr].
      + split; [intros _; right; left; exact Hr | intros _; discriminate].
      + split; [intros H; right; right; exact H |].
        intros [H | [H | H]]; [contradiction | contradiction | exact H].
    - split; [intros _; left; exact Hp | intros _; discriminate]. }
  assert (Hrf : (if nonzero (Z.land (task_flags current) PF_RANDOMIZE)
                 then arch_mmap_rnd random else 0) = random_factor).
  { unfold random_factor, nonzero.
    destruct (Z.land (task_flags current) PF_RANDOMIZE =? 0); reflexivity. }
  unfold mm', arch_pick_mmap_layout. rewrite Hrf.
  destruct (nonzero (mmap_is_legacy current)) eqn:E;
    unfold nonzero in E;
    [apply negb_true_iff, Z.eqb_neq in E; rename E into Hnz
    | apply negb_false_iff, Z.eqb_eq in E; rename E into Hz]; simpl; cycle 1.
  - assert (Hno : ~ legacy) by (intros H; apply Hleg in H; contradiction).
    split; [exact Hleg |]. split; [split; [discriminate | contradiction] |].
    split; [intros H; contradiction |]. split; [| reflexivity].
    intros _. split; reflexivity.
  - assert (Hyes : legacy) by (apply Hleg; exact Hnz).
    split; [exact Hleg |]. split; [split; [intros _; exact Hyes | reflexivity] |].
    split; [| split; [intros H; contradiction | reflexivity]].
    intros _. repeat split.
    intros Hu. unfold add_ul. apply wrap_small, Hu.
Qed.

(** With the default stack limit the layout is top-down, with an unlimited
    stack it is the legacy one. *)
Lemma arch_pick_mmap_layout_spec_witness :
  mm_mmap_base (@arch_pick_mmap_layout arm (task_of mm_legacy) 77 mm_legacy)
  = 0xb7000000 /\
  mm_get_unmapped_area
    (@arch_pick_mmap_layout arm (task_of mm_legacy) 77 mm_legacy)
  = fn_arch_get_unmapped_area_topdown.
Proof.
  destruct (@arch_pick_mmap_layout_spec arm (task_of mm_legacy) 77 mm_legacy)
    as (_ & _ & _ & Htop & _).
  destruct Htop as [Hbase Hfn].
  - intros [H | [H | H]]; vm_compute in H; [apply H; reflexivity | discriminate
                                            | apply H; reflexivity].
  - split; [rewrite Hbase; vm_compute; reflexivity | exact Hfn].
Defined.

(** ** C9: the [/dev/mem] filter *)

(** X16.  What [devmem_is_allowed] tests.  It returns 0 when
    [iomem_is_exclusive] holds of the [unsigned long] value
    [pfn << PAGE_SHIFT]; otherwise 0 when [page_is_ram] holds of [pfn];
    otherwise 1.  For [pfn < 2^(BITS_PER_LONG - PAGE_SHIFT)] the value
    tested is [pfn * PAGE_SIZE], the address of the page; for a larger
    frame number the shift wraps. *)
Theorem devmem_is_allowed_spec {P : platform}
    (iomem_is_exclusive page_is_ram : Z -> bool) (pfn : Z) :
  let addr := shl_ul pfn PAGE_SHIFT in
  let allowed := devmem_is_allowed iomem_is_exclusive page_is_ram pfn in
  (iomem_is_exclusive addr = true -> allowed = 0) /\
  (iomem_is_exclusive addr = false -> page_is_ram pfn = true -> allowed = 0) /\
  (iomem_is_exclusive addr = false -> page_is_ram pfn = false -> allowed = 1) /\
  (allowed <> 0 <->
   iomem_is_exclusive addr = false /\ page_is_ram pfn = false) /\
  (words_ok -> 0 <= pfn < 2 ^ (BITS_PER_LONG - PAGE_SHIFT) ->
   addr = pfn * PAGE_SIZE).
Proof.
  intros addr allowed. unfold allowed, devmem_is_allowed. fold addr.
  destruct (iomem_is_exclusive addr), (page_is_ram pfn); simpl;
    repeat split; try congruence; try tauto;
    try (intros [? ?]; congruence); try discriminate.
  all: intros Hok Hp; unfold addr, shl_ul;
    rewrite Z.shiftl_mul_pow2 by (destruct Hok; lia);
    rewrite <- (PAGE_SIZE_eq Hok);
    apply wrap_small; unfold ulong;
    rewrite (PAGE_SIZE_eq Hok);
    assert (Hs : 0 < PAGE_SHIFT < BITS_PER_LONG) by (destruct Hok; assumption);
    assert (Hpow : 2 ^ BITS_PER_LONG
                   = 2 ^ (BITS_PER_LONG - PAGE_SHIFT) * 2 ^ PAGE_SHIFT)
      by (rewrite <- Z.pow_add_r by lia; f_equal; lia);
    assert (0 < 2 ^ PAGE_SHIFT) by (apply Z.pow_pos_nonneg; lia);
    nia.
Qed.

(** With RAM in the first 256 MiB and an exclusive region at [0xf9000000]:
    a page of RAM and the exclusive page are refused, another device page
    is allowed. *)
Lemma devmem_is_allowed_spec_witness :
  let exclusive := fun a => (0xf9000000 <=? a) && (a <? 0xf9001000) in
  let ram := fun p => p <? 0x10000 in
  @devmem_is_allowed arm exclusive ram 0x100 = 0 /\
  @devmem_is_allowed arm exclusive ram 0xf9000 = 0 /\
  @devmem_is_allowed arm exclusive ram 0xf9001 = 1.
Proof.
  intros exclusive ram.
  pose proof (@devmem_is_allowed_spec arm exclusive ram 0x100) as (_ & H1 & _).
  pose proof (@devmem_is_allowed_spec arm exclusive ram 0xf9000) as (H2 & _).
  pose proof (@devmem_is_allowed_spec arm exclusive ram 0xf9001) as (_ & _ & H3 & _).
  split; [apply H1; reflexivity |]. split; [apply H2; reflexivity |].
  apply H3; reflexivity.
Defined.


(** * More of the file *)

(** ** Page rounding without overflow *)

Lemma PAGE_ALIGN_round_up {P : platform} (x : Z) :
  words_ok -> 0 <= x -> x + (PAGE_SIZE - 1) < 2 ^ BITS_PER_LONG ->
  x <= PAGE_ALIGN x < x + PAGE_SIZE /\ page_aligned (PAGE_ALIGN x).
Proof.
  intros Hok Hx Hno. split; [| apply (PAGE_ALIGN_aligned Hok)].
  rewrite (PAGE_ALIGN_eq Hok).
  pose proof (PAGE_SIZE_pos Hok) as Hp.
  rewrite wrap_small by (unfold ulong; lia).
  pose proof (Z.mod_pos_bound (x + (PAGE_SIZE - 1)) PAGE_SIZE Hp). lia.
Qed.

(** Rounding up stays at or below every page boundary above the address. *)
Lemma PAGE_ALIGN_le_boundary {P : platform} (x t : Z) :
  words_ok -> 0 <= x -> x <= t -> t < 2 ^ BITS_PER_LONG -> page_aligned t ->
  PAGE_ALIGN x <= t.
Proof.
  intros Hok Hx Hle Ht Hpa.
  pose proof (PAGE_SIZE_pos Hok) as Hp.
  unfold page_aligned in Hpa. apply Z.mod_divide in Hpa; [| lia].
  destruct Hpa as [k Hk].
  (* the modulus is a page boundary too, so one more page fits below it *)
  assert (Hroom : t + PAGE_SIZE <= 2 ^ BITS_PER_LONG).
  { assert (Hs : 0 < PAGE_SHIFT < BITS_PER_LONG) by (destruct Hok; assumption).
    assert (Hw : 2 ^ BITS_PER_LONG
                 = 2 ^ (BITS_PER_LONG - PAGE_SHIFT) * PAGE_SIZE).
    { rewrite (PAGE_SIZE_eq Hok), <- Z.pow_add_r by lia. f_equal. lia. }
    assert (k < 2 ^ (BITS_PER_LONG - PAGE_SHIFT)) by nia. nia. }
  destruct (PAGE_ALIGN_round_up x Hok Hx ltac:(lia)) as [[_ Hlt] Hal].
  unfold page_aligned in Hal. apply Z.mod_divide in Hal; [| lia].
  destruct Hal as [m Hm].
  assert (Hmk : m < k + 1)
    by (apply (Z.mul_lt_mono_pos_r PAGE_SIZE); lia).
  rewrite Hm, Hk. apply Z.mul_le_mono_nonneg_r; lia.
Qed.

(** ** The random offset *)

Lemma arch_mmap_rnd_eq {P : platform} (random : Z) :
  words_ok -> 0 <= mmap_rnd_bits ->
  mmap_rnd_bits + PAGE_SHIFT <= BITS_PER_LONG ->
  arch_mmap_rnd random = (random mod 2 ^ mmap_rnd_bits) * PAGE_SIZE.
Proof.
  intros Hok Hb Hfit.
  assert (Hs : 0 < PAGE_SHIFT < BITS_PER_LONG) by (destruct Hok; assumption).
  pose proof (PAGE_SIZE_pos Hok) as Hp.
  assert (Hpb : 0 < 2 ^ mmap_rnd_bits) by (apply Z.pow_pos_nonneg; lia).
  pose proof (Z.mod_pos_bound random (2 ^ mmap_rnd_bits) Hpb) as Hr.
  unfold arch_mmap_rnd, shl_ul.
  rewrite Z.shiftl_1_l.
  replace (2 ^ mmap_rnd_bits - 1) with (Z.ones mmap_rnd_bits)
    by (rewrite Z.ones_equiv; lia).
  rewrite Z.land_ones by lia.
  rewrite Z.shiftl_mul_pow2 by lia. rewrite <- (PAGE_SIZE_eq Hok).
  apply wrap_small. unfold ulong.
  assert (2 ^ mmap_rnd_bits * PAGE_SIZE <= 2 ^ BITS_PER_LONG).
  { rewrite (PAGE_SIZE_eq Hok), <- Z.pow_add_r by lia.
    apply Z.pow_le_mono_r; lia. }
  nia.
Qed.

(** X1.  [arch_mmap_rnd] keeps the low [mmap_rnd_bits] bits of the random
    number and shifts them to page granularity: the offset is
    [(random mod 2^mmap_rnd_bits) * PAGE_SIZE], a page boundary between 0
    and [(2^mmap_rnd_bits - 1) * PAGE_SIZE], and every such page boundary is
    the offset of some random number, provided the shifted bits fit the
    word. *)
Theorem arch_mmap_rnd_range {P : platform} (random : Z) :
  words_ok -> 0 <= mmap_rnd_bits ->
  mmap_rnd_bits + PAGE_SHIFT <= BITS_PER_LONG ->
  arch_mmap_rnd random = (random mod 2 ^ mmap_rnd_bits) * PAGE_SIZE /\
  page_aligned (arch_mmap_rnd random) /\
  0 <= arch_mmap_rnd random <= (2 ^ mmap_rnd_bits - 1) * PAGE_SIZE /\
  (forall k, 0 <= k < 2 ^ mmap_rnd_bits -> arch_mmap_rnd k = k * PAGE_SIZE).
Proof.
  intros Hok Hb Hfit.
  pose proof (PAGE_SIZE_pos Hok) as Hp.
  assert (Hpb : 0 < 2 ^ mmap_rnd_bits) by (apply Z.pow_pos_nonneg; lia).
  pose proof (Z.mod_pos_bound random (2 ^ mmap_rnd_bits) Hpb) as Hr.
  rewrite (arch_mmap_rnd_eq random Hok Hb Hfit).
  repeat split; try nia.
  - unfold page_aligned. apply Z.mod_mul. lia.
  - intros k Hk. rewrite (arch_mmap_rnd_eq k Hok Hb Hfit).
    rewrite Z.mod_small by lia. reflexivity.
Qed.

Lemma arch_mmap_rnd_range_witness :
  @arch_mmap_rnd arm 0x12345 = 0x45000 /\
  0 <= @arch_mmap_rnd arm 0x12345 <= 255 * 4096.
Proof.
  destruct (@arch_mmap_rnd_range arm 0x12345 arm_words_ok) as (E & _ & Hr & _).
  - discriminate.
  - discriminate.
  - split; [rewrite E; reflexivity | exact Hr].
Defined.

(** ** The top-down base *)

(** Inside [mmap_base] nothing wraps when the random offset leaves
    [MAX_GAP] below a page-aligned [TASK_SIZE]. *)
Lemma mmap_base_window {P : platform} (current : task_struct) (rnd : Z) :
  words_ok ->
  0 <= TASK_SIZE < 2 ^ BITS_PER_LONG -> page_aligned TASK_SIZE ->
  128 * 1024 * 1024 < 2 ^ BITS_PER_LONG ->
  MIN_GAP <= MAX_GAP ->
  0 <= rnd <= TASK_SIZE - MAX_GAP ->
  MIN_GAP = 128 * 1024 * 1024 /\
  MIN_GAP <= stack_gap current <= MAX_GAP /\
  mmap_base current rnd = PAGE_ALIGN (TASK_SIZE - stack_gap current - rnd) /\
  (TASK_SIZE - stack_gap current - rnd) + (PAGE_SIZE - 1) < 2 ^ BITS_PER_LONG.
Proof.
  intros Hok Ht Hta Hw Hle Hrnd.
  assert (Hmin : MIN_GAP = 128 * 1024 * 1024)
    by (unfold MIN_GAP; apply wrap_small; unfold ulong; lia).
  assert (Hgap : MIN_GAP <= stack_gap current <= MAX_GAP).
  { unfold stack_gap.
    destruct (Z.ltb_spec (rlimit_stack current) MIN_GAP);
      [| destruct (Z.gtb_spec (rlimit_stack current) MAX_GAP)]; lia. }
  split; [exact Hmin |]. split; [exact Hgap |]. split.
  - unfold mmap_base. rewrite sub_ul_sub_ul.
    rewrite wrap_small by (unfold ulong; lia). reflexivity.
  - (* the address is below a page boundary inside the word *)
    pose proof (PAGE_SIZE_pos Hok) as Hp.
    assert (Hs : 0 < PAGE_SHIFT < BITS_PER_LONG) by (destruct Hok; assumption).
    assert (Hwd : 2 ^ BITS_PER_LONG
                  = 2 ^ (BITS_PER_LONG - PAGE_SHIFT) * PAGE_SIZE).
    { rewrite (PAGE_SIZE_eq Hok), <- Z.pow_add_r by lia. f_equal. lia. }
    unfold page_aligned in Hta. apply Z.mod_divide in Hta; [| lia].
    destruct Hta as [k Hk].
    assert (k < 2 ^ (BITS_PER_LONG - PAGE_SHIFT)) by nia. nia.
Qed.

(** X2.  When [TASK_SIZE] is a page boundary and the random offset leaves
    [MAX_GAP] below [TASK_SIZE], [mmap_base] returns the page boundary at or
    just above [TASK_SIZE - gap - rnd] for the clamped stack limit [gap]:
    nothing wraps, the base is at most [TASK_SIZE], and at least
    [TASK_SIZE - MAX_GAP - rnd]. *)
Theorem mmap_base_bounds {P : platform} (current : task_struct) (rnd : Z) :
  words_ok ->
  0 <= TASK_SIZE < 2 ^ BITS_PER_LONG -> page_aligned TASK_SIZE ->
  128 * 1024 * 1024 < 2 ^ BITS_PER_LONG ->
  MIN_GAP <= MAX_GAP ->
  0 <= rnd <= TASK_SIZE - MAX_GAP ->
  page_aligned (mmap_base current rnd) /\
  TASK_SIZE - stack_gap current - rnd <= mmap_base current rnd
    < TASK_SIZE - stack_gap current - rnd + PAGE_SIZE /\
  TASK_SIZE - MAX_GAP - rnd <= mmap_base current rnd <= TASK_SIZE.
Proof.
  intros Hok Ht Hta Hw Hle Hrnd.
  destruct (mmap_base_window current rnd Hok Ht Hta Hw Hle Hrnd)
    as (Hmin & Hgap & Hbase & Hno).
  rewrite Hbase.
  assert (Hx0 : 0 <= TASK_SIZE - stack_gap current - rnd) by lia.
  assert (Hx1 : TASK_SIZE - stack_gap current - rnd <= TASK_SIZE) by lia.
  assert (Ht1 : TASK_SIZE < 2 ^ BITS_PER_LONG) by lia.
  pose proof (PAGE_ALIGN_le_boundary _ TASK_SIZE Hok Hx0 Hx1 Ht1 Hta) as Htop.
  destruct (PAGE_ALIGN_round_up _ Hok Hx0 Hno) as [Hr Hal].
  repeat split; try assumption; lia.
Qed.

Lemma mmap_base_bounds_witness :
  @page_aligned arm (@mmap_base arm task_big_stack 0x45000) /\
  @TASK_SIZE arm - @MAX_GAP arm - 0x45000
    <= @mmap_base arm task_big_stack 0x45000 <= @TASK_SIZE arm.
Proof.
  destruct (@mmap_base_bounds arm task_big_stack 0x45000 arm_words_ok)
    as (Hal & _ & Hb).
  - vm_compute. split; [discriminate | reflexivity].
  - reflexivity.
  - reflexivity.
  - vm_compute. discriminate.
  - vm_compute. split; discriminate.
  - split; assumption.
Defined.

(** ** The placement functions as equations *)

Section Equations.
Context {P : platform}.
Variable current : task_struct.
Variable ratelimit : bool.
Variable filp : option file.
Variables addr len pgoff flags : Z.

Let mm := task_mm current.
Let d := do_align_of filp flags.
Let hint := align_hint d addr pgoff.

(** The value and the log of [arch_get_unmapped_area], with the monad
    unfolded. *)
Lemma arch_get_unmapped_area_eq :
  arch_get_unmapped_area current ratelimit filp addr len pgoff flags =
  if nonzero (Z.land flags MAP_FIXED)
  then (if fixed_misaligned addr pgoff flags then neg_ul EINVAL else addr, [])
  else if len >? sub_ul TASK_SIZE mmap_min_addr
  then (neg_ul ENOMEM,
        if ratelimit then [printk_len 89 current len addr] else [])
  else if nonzero addr && hint_ok mm hint len
  then (hint, [])
  else
    let info := bottomup_info mm d len pgoff in
    let r := vm_unmapped_area mm info in
    (r, ev_vm_unmapped_area info :: nomem_report ratelimit 120 current r info).
Proof.
  unfold arch_get_unmapped_area. fold mm d hint.
  destruct (nonzero (Z.land flags MAP_FIXED)).
  { destruct (fixed_misaligned addr pgoff flags); reflexivity. }
  destruct (len >? sub_ul TASK_SIZE mmap_min_addr).
  { destruct ratelimit; reflexivity. }
  destruct (nonzero addr && hint_ok mm hint len); [reflexivity |].
  unfold call_vm_unmapped_area, bind, tell, ret, ratelimited, nomem_report.
  cbv zeta.
  destruct (vm_unmapped_area mm (bottomup_info mm d len pgoff) =? neg_ul ENOMEM);
    [destruct ratelimit |]; reflexivity.
Qed.

(** The same for [arch_get_unmapped_area_topdown]. *)
Lemma arch_get_unmapped_area_topdown_eq :
  arch_get_unmapped_area_topdown current ratelimit filp addr len pgoff flags =
  if len >? sub_ul TASK_SIZE mmap_min_addr
  then (neg_ul ENOMEM,
        if ratelimit then [printk_len 156 current len addr] else [])
  else if nonzero (Z.land flags MAP_FIXED)
  then (if fixed_misaligned addr pgoff flags then neg_ul EINVAL else addr, [])
  else if nonzero addr && hint_ok mm hint len
  then (hint, [])
  else
    let td := topdown_info mm d len pgoff in
    let r := vm_unmapped_area mm td in
    if nonzero (Z.land r (not_ul PAGE_MASK))
    then
      let fb := fallback_info mm td in
      let r' := vm_unmapped_area mm fb in
      (r', ev_vm_unmapped_area td :: ev_vm_unmapped_area fb
           :: nomem_report ratelimit 208 current r' fb)
    else
      (r, ev_vm_unmapped_area td :: nomem_report ratelimit 208 current r td).
Proof.
  unfold arch_get_unmapped_area_topdown. fold mm d hint.
  destruct (len >? sub_ul TASK_SIZE mmap_min_addr).
  { destruct ratelimit; reflexivity. }
  destruct (nonzero (Z.land flags MAP_FIXED)).
  { destruct (fixed_misaligned addr pgoff flags); reflexivity. }
  destruct (nonzero addr && hint_ok mm hint len); [reflexivity |].
  unfold call_vm_unmapped_area, bind, tell, ret, ratelimited, nomem_report.
  cbv zeta.
  destruct (nonzero (Z.land (vm_unmapped_area mm (topdown_info mm d len pgoff))
                            (not_ul PAGE_MASK))); cbn [fst snd app].
  - destruct (vm_unmapped_area mm (fallback_info mm (topdown_info mm d len pgoff))
              =? neg_ul ENOMEM); [destruct ratelimit |]; reflexivity.
  - destruct (vm_unmapped_area mm (topdown_info mm d len pgoff) =? neg_ul ENOMEM);
      [destruct ratelimit |]; reflexivity.
Qed.

End Equations.

(** ** Diagnostics *)

Lemma nomem_report_no_search {P : platform} (ratelimit : bool) (line : Z)
    (current : task_struct) (r : Z) (info : vm_unmapped_area_info) :
  search_log (nomem_report ratelimit line current r info) = [] /\
  printk_log (nomem_report false line current r info) = [] /\
  length (printk_log (nomem_report ratelimit line current r info))
  = if ratelimit && (r =? neg_ul ENOMEM) then 1%nat else 0%nat.
Proof.
  unfold nomem_report.
  destruct (r =? neg_ul ENOMEM), ratelimit; repeat split; reflexivity.
Qed.

(** X3.  The rate limit only decides whether a message is logged: with and
    without the grant, both placement functions return the same value and
    make the same searches, and without it nothing is printed. *)
Theorem diagnostics_do_not_steer {P : platform} (current : task_struct)
    (filp : option file) (addr len pgoff flags : Z) :
  let up b := arch_get_unmapped_area current b filp addr len pgoff flags in
  let down b :=
    arch_get_unmapped_area_topdown current b filp addr len pgoff flags in
  (fst (up true) = fst (up false) /\
   search_log (snd (up true)) = search_log (snd (up false)) /\
   printk_log (snd (up false)) = []) /\
  (fst (down true) = fst (down false) /\
   search_log (snd (down true)) = search_log (snd (down false)) /\
   printk_log (snd (down false)) = []).
Proof.
  intros up down. unfold up, down.
  rewrite !arch_get_unmapped_area_eq, !arch_get_unmapped_area_topdown_eq.
  cbv zeta.
  set (mm := task_mm current). set (d := do_align_of filp flags).
  destruct (nonzero (Z.land flags MAP_FIXED));
    destruct (len >? sub_ul TASK_SIZE mmap_min_addr);
    try (split; repeat split; reflexivity).
  destruct (nonzero addr && hint_ok mm (align_hint d addr pgoff) len);
    [split; repeat split; reflexivity |].
  split.
  - cbn [fst snd search_log printk_log flat_map filter app].
    set (r := vm_unmapped_area mm (bottomup_info mm d len pgoff)).
    destruct (nomem_report_no_search true 120 current r
                (bottomup_info mm d len pgoff)) as (H1 & _ & _).
    destruct (nomem_report_no_search false 120 current r
                (bottomup_info mm d len pgoff)) as (H2 & H3 & _).
    fold (search_log (nomem_report true 120 current r (bottomup_info mm d len pgoff))).
    fold (search_log (nomem_report false 120 current r (bottomup_info mm d len pgoff))).
    fold (printk_log (nomem_report false 120 current r (bottomup_info mm d len pgoff))).
    rewrite H1, H2, H3. repeat split; reflexivity.
  - set (td := topdown_info mm d len pgoff).
    destruct (nonzero (Z.land (vm_unmapped_area mm td) (not_ul PAGE_MASK)));
      cbn [fst snd search_log printk_log flat_map filter app].
    + set (fb := fallback_info mm td). set (r := vm_unmapped_area mm fb).
      destruct (nomem_report_no_search true 208 current r fb) as (H1 & _ & _).
      destruct (nomem_report_no_search false 208 current r fb) as (H2 & H3 & _).
      fold (search_log (nomem_report true 208 current r fb)).
      fold (search_log (nomem_report false 208 current r fb)).
      fold (printk_log (nomem_report false 208 current r fb)).
      rewrite H1, H2, H3. repeat split; reflexivity.
    + set (r := vm_unmapped_area mm td).
      destruct (nomem_report_no_search true 208 current r td) as (H1 & _ & _).
      destruct (nomem_report_no_search false 208 current r td) as (H2 & H3 & _).
      fold (search_log (nomem_report true 208 current r td)).
      fold (search_log (nomem_report false 208 current r td)).
      fold (printk_log (nomem_report false 208 current r td)).
      rewrite H1, H2, H3. repeat split; reflexivity.
Qed.

(** X4.  For a request without [MAP_FIXED], each placement function prints
    one message exactly when it returns [-ENOMEM] and the rate limit grants
    it; a success is never reported. *)
Theorem nomem_is_reported {P : platform} (current : task_struct)
    (ratelimit : bool) (filp : option file) (addr len pgoff flags : Z) :
  words_ok -> 0 < ENOMEM < PAGE_SIZE -> (PAGE_SIZE | SHMLBA) ->
  Z.land flags MAP_FIXED = 0 ->
  let up := arch_get_unmapped_area current ratelimit filp addr len pgoff flags in
  let down :=
    arch_get_unmapped_area_topdown current ratelimit filp addr len pgoff flags in
  length (printk_log (snd up))
  = (if ratelimit && (fst up =? neg_ul ENOMEM) then 1%nat else 0%nat) /\
  length (printk_log (snd down))
  = (if ratelimit && (fst down =? neg_ul ENOMEM) then 1%nat else 0%nat).
Proof.
  intros Hok Herr Hdiv Hfix up down. unfold up, down.
  rewrite arch_get_unmapped_area_eq, arch_get_unmapped_area_topdown_eq.
  cbv zeta.
  assert (Hf : nonzero (Z.land flags MAP_FIXED) = false)
    by (unfold nonzero; rewrite Hfix; reflexivity).
  rewrite Hf.
  set (mm := task_mm current). set (d := do_align_of filp flags).
  destruct (len >? sub_ul TASK_SIZE mmap_min_addr).
  { cbn [fst snd]. rewrite Z.eqb_refl. destruct ratelimit; split; reflexivity. }
  destruct (nonzero addr && hint_ok mm (align_hint d addr pgoff) len).
  { (* an accepted hint is a page boundary, so it is not -ENOMEM *)
    cbn [fst snd printk_log filter length].
    assert (Hne : (align_hint d addr pgoff =? neg_ul ENOMEM) = false).
    { apply Z.eqb_neq. intros E.
      pose proof (align_hint_aligned Hok d addr pgoff Hdiv) as Hpa.
      unfold page_aligned in Hpa. rewrite E in Hpa.
      exact (neg_errno_not_aligned Hok _ Herr Hpa). }
    rewrite Hne, andb_false_r. split; reflexivity. }
  split.
  - cbn [fst snd printk_log filter].
    apply (nomem_report_no_search ratelimit 120 current).
  - set (td := topdown_info mm d len pgoff).
    destruct (nonzero (Z.land (vm_unmapped_area mm td) (not_ul PAGE_MASK)));
      cbn [fst snd printk_log filter];
      apply (nomem_report_no_search ratelimit 208 current).
Qed.

(** A request longer than the address range, granted a message: one message,
    from the line of the length test. *)
Lemma nomem_is_reported_witness :
  length (printk_log
            (snd (@arch_get_unmapped_area arm (task_of mm_legacy) true None
                    0 0xbf000000 0 0))) = 1%nat /\
  length (printk_log
            (snd (@arch_get_unmapped_area_topdown arm (task_of mm_topdown) true
                    None 0 0x3000 0 0))) = 0%nat.
Proof.
  split.
  - refine (proj1 (@nomem_is_reported arm (task_of mm_legacy) true None
                     0 0xbf000000 0 0 arm_words_ok _ arm_page_divides_SHMLBA _)).
    + vm_compute. split; reflexivity.
    + reflexivity.
  - refine (proj2 (@nomem_is_reported arm (task_of mm_topdown) true None
                     0 0x3000 0 0 arm_words_ok _ arm_page_divides_SHMLBA _)).
    + vm_compute. split; reflexivity.
    + reflexivity.
Defined.

(** ** Every way a request without [MAP_FIXED] can end *)

Section Outcomes.
Context {P : platform}.
Hypothesis Hok : words_ok.
Variable current : task_struct.
Variable ratelimit : bool.
Variable filp : option file.
Variables addr len pgoff flags : Z.
Hypothesis Hfix : Z.land flags MAP_FIXED = 0.

Let mm := task_mm current.
Let d := do_align_of filp flags.
Let hint := align_hint d addr pgoff.
Let bu := bottomup_info mm d len pgoff.
Let td := topdown_info mm d len pgoff.
Let fb := fallback_info mm td.

(** Bottom-up: [-ENOMEM], or the accepted hint without a search, or an
    address that fits the one search. *)
Lemma bottomup_outcomes :
  let run := arch_get_unmapped_area current ratelimit filp addr len pgoff flags in
  fst run = neg_ul ENOMEM \/
  (search_log (snd run) = [] /\ fst run = hint /\ addr <> 0 /\
   (len >? sub_ul TASK_SIZE mmap_min_addr) = false /\
   hint_ok mm hint len = true) \/
  (search_log (snd run) = [bu] /\ gap_fits mm bu (fst run) = true /\
   (len >? sub_ul TASK_SIZE mmap_min_addr) = false).
Proof.
  intros run. unfold run. rewrite arch_get_unmapped_area_eq. cbv zeta.
  assert (Hf : nonzero (Z.land flags MAP_FIXED) = false)
    by (unfold nonzero; rewrite Hfix; reflexivity).
  rewrite Hf. fold mm d hint bu.
  destruct (len >? sub_ul TASK_SIZE mmap_min_addr); [left; reflexivity |].
  destruct (nonzero addr && hint_ok mm hint len) eqn:Hh.
  - right. left. apply andb_true_iff in Hh. destruct Hh as [Hnz Hh].
    unfold nonzero in Hnz. apply negb_true_iff, Z.eqb_neq in Hnz.
    repeat split; assumption || reflexivity.
  - cbn [fst snd].
    destruct (vm_unmapped_area_cases Hok mm bu) as [Hfit | [Hnone _]];
      [| left; exact Hnone].
    right. right. repeat split; [| exact Hfit].
    cbn [search_log flat_map app].
    fold (search_log (nomem_report ratelimit 120 current
                        (vm_unmapped_area mm bu) bu)).
    rewrite (proj1 (nomem_report_no_search _ _ _ _ _)). reflexivity.
Qed.

(** Top-down: [-ENOMEM], or the accepted hint, or an address that fits the
    search below the base, or, when no address fits below the base, an
    address that fits the search above it. *)
Lemma topdown_outcomes :
  0 < ENOMEM < PAGE_SIZE ->
  let run :=
    arch_get_unmapped_area_topdown current ratelimit filp addr len pgoff flags in
  fst run = neg_ul ENOMEM \/
  (search_log (snd run) = [] /\ fst run = hint /\ addr <> 0 /\
   (len >? sub_ul TASK_SIZE mmap_min_addr) = false /\
   hint_ok mm hint len = true) \/
  (search_log (snd run) = [td] /\ gap_fits mm td (fst run) = true /\
   (len >? sub_ul TASK_SIZE mmap_min_addr) = false) \/
  (search_log (snd run) = [td; fb] /\ gap_fits mm fb (fst run) = true /\
   (forall b, gap_fits mm td b = false) /\
   (len >? sub_ul TASK_SIZE mmap_min_addr) = false).
Proof.
  intros Herr run. unfold run. rewrite arch_get_unmapped_area_topdown_eq.
  cbv zeta.
  assert (Hf : nonzero (Z.land flags MAP_FIXED) = false)
    by (unfold nonzero; rewrite Hfix; reflexivity).
  rewrite Hf. fold mm d hint td fb.
  destruct (len >? sub_ul TASK_SIZE mmap_min_addr); [left; reflexivity |].
  destruct (nonzero addr && hint_ok mm hint len) eqn:Hh.
  { right. left. apply andb_true_iff in Hh. destruct Hh as [Hnz Hh].
    unfold nonzero in Hnz. apply negb_true_iff, Z.eqb_neq in Hnz.
    repeat split; assumption || reflexivity. }
  destruct (nonzero (Z.land (vm_unmapped_area mm td) (not_ul PAGE_MASK))) eqn:Hr;
    cbn [fst snd].
  - apply (search_failed_iff Hok mm td Herr) in Hr.
    assert (Hnone : forall b, gap_fits mm td b = false).
    { destruct (vm_unmapped_area_cases Hok mm td) as [Hfit | [_ Hn]];
        [| exact Hn].
      exfalso. apply (gap_fits_iff Hok) in Hfit.
      destruct Hfit as (_ & _ & Hpa & _). rewrite Hr in Hpa.
      exact (neg_errno_not_aligned Hok _ Herr Hpa). }
    destruct (vm_unmapped_area_cases Hok mm fb) as [Hfit | [Hn _]];
      [| left; exact Hn].
    right. right. right. repeat split; try assumption.
    cbn [search_log flat_map app].
    fold (search_log (nomem_report ratelimit 208 current
                        (vm_unmapped_area mm fb) fb)).
    rewrite (proj1 (nomem_report_no_search _ _ _ _ _)). reflexivity.
  - destruct (vm_unmapped_area_cases Hok mm td) as [Hfit | [Hn _]];
      [| left; exact Hn].
    right. right. left. repeat split; try assumption.
    cbn [search_log flat_map app].
    fold (search_log (nomem_report ratelimit 208 current
                        (vm_unmapped_area mm td) td)).
    rewrite (proj1 (nomem_report_no_search _ _ _ _ _)). reflexivity.
Qed.

End Outcomes.

(** ** Values returned, and where they lie *)

Lemma neg_ul_small {P : platform} (e : Z) :
  0 < e < 2 ^ BITS_PER_LONG -> neg_ul e = 2 ^ BITS_PER_LONG - e.
Proof.
  intros He. unfold neg_ul, wrap. symmetry.
  apply Z.mod_unique with (q := -1); [left; lia | lia].
Qed.

(** A value is a page boundary or [-ENOMEM], and then it is not [-EINVAL]
    and its low bits tell which of the two it is. *)
Lemma boundary_or_nomem {P : platform} (r : Z) :
  words_ok -> 0 < ENOMEM < PAGE_SIZE -> 0 < EINVAL < PAGE_SIZE ->
  ENOMEM <> EINVAL ->
  r = neg_ul ENOMEM \/ page_aligned r ->
  r <> neg_ul EINVAL /\
  (Z.land r (not_ul PAGE_MASK) = 0 <-> r <> neg_ul ENOMEM).
Proof.
  intros Hok Hen Hei Hd Hr.
  pose proof (PAGE_SIZE_lt_word Hok) as Hw.
  rewrite (page_offset_bits Hok).
  pose proof (neg_errno_not_aligned Hok _ Hen) as Hn.
  pose proof (neg_errno_not_aligned Hok _ Hei) as Hi.
  destruct Hr as [-> | Hpa].
  - split; [| tauto].
    rewrite !neg_ul_small by lia. lia.
  - unfold page_aligned in Hpa. split.
    + intros E. rewrite E in Hpa. contradiction.
    + split; [| intros _; exact Hpa].
      intros _ E. rewrite E in Hpa. contradiction.
Qed.

(** X5.  What the placement functions return.  Without [MAP_FIXED], each
    returns [-ENOMEM] or a page boundary: never [-EINVAL], and the low bits
    of the value are clear exactly when it is not [-ENOMEM], which is the
    test of the fall-back and of the callers.  With [MAP_FIXED],
    [arch_get_unmapped_area] returns the requested address or [-EINVAL],
    and [arch_get_unmapped_area_topdown] one of these or [-ENOMEM]. *)
Theorem return_values {P : platform} (current : task_struct)
    (ratelimit : bool) (filp : option file) (addr len pgoff flags : Z) :
  words_ok -> 0 < ENOMEM < PAGE_SIZE -> 0 < EINVAL < PAGE_SIZE ->
  ENOMEM <> EINVAL -> (PAGE_SIZE | SHMLBA) ->
  let up := arch_get_unmapped_area current ratelimit filp addr len pgoff flags in
  let down :=
    arch_get_unmapped_area_topdown current ratelimit filp addr len pgoff flags in
  (Z.land flags MAP_FIXED = 0 ->
   (fst up <> neg_ul EINVAL /\
    (Z.land (fst up) (not_ul PAGE_MASK) = 0 <-> fst up <> neg_ul ENOMEM)) /\
   (fst down <> neg_ul EINVAL /\
    (Z.land (fst down) (not_ul PAGE_MASK) = 0 <-> fst down <> neg_ul ENOMEM))) /\
  (Z.land flags MAP_FIXED <> 0 ->
   (fst up = addr \/ fst up = neg_ul EINVAL) /\
   (fst down = addr \/ fst down = neg_ul EINVAL \/ fst down = neg_ul ENOMEM)).
Proof.
  intros Hok Hen Hei Hd Hdiv up down. split.
  - intros Hfix.
    pose proof (align_hint_aligned Hok (do_align_of filp flags) addr pgoff Hdiv)
      as Hh.
    split; apply (boundary_or_nomem _ Hok Hen Hei Hd).
    + destruct (bottomup_outcomes Hok current ratelimit filp addr len pgoff
                  flags Hfix) as [E | [(_ & E & _) | (_ & Hfit & _)]].
      * left. exact E.
      * right. unfold up. rewrite E. exact Hh.
      * right. apply (gap_fits_iff Hok) in Hfit. tauto.
    + destruct (topdown_outcomes Hok current ratelimit filp addr len pgoff
                  flags Hfix Hen)
        as [E | [(_ & E & _) | [(_ & Hfit & _) | (_ & Hfit & _)]]].
      * left. exact E.
      * right. unfold down. rewrite E. exact Hh.
      * right. apply (gap_fits_iff Hok) in Hfit. tauto.
      * right. apply (gap_fits_iff Hok) in Hfit. tauto.
  - intros Hfix.
    assert (Hf : nonzero (Z.land flags MAP_FIXED) = true)
      by (unfold nonzero; apply negb_true_iff, Z.eqb_neq, Hfix).
    unfold up, down.
    rewrite arch_get_unmapped_area_eq, arch_get_unmapped_area_topdown_eq, Hf.
    destruct (len >? sub_ul TASK_SIZE mmap_min_addr);
      destruct (fixed_misaligned addr pgoff flags); cbn [fst]; tauto.
Qed.

Lemma return_values_witness :
  Z.land (fst (@arch_get_unmapped_area_topdown arm (task_of mm_topdown) true None
                 0 0x3000 0 0)) (@not_ul arm (@PAGE_MASK arm)) = 0.
Proof.
  refine (proj2 (proj2 (proj2 (proj1
            (@return_values arm (task_of mm_topdown) true None 0 0x3000 0 0
               arm_words_ok _ _ _ arm_page_divides_SHMLBA) _))) _).
  - vm_compute. split; reflexivity.
  - vm_compute. split; reflexivity.
  - discriminate.
  - reflexivity.
  - vm_compute. discriminate.
Defined.

(** X6.  Where a success lies.  Without [MAP_FIXED], a value other than
    [-ENOMEM] returned by [arch_get_unmapped_area] is the accepted hint,
    with no search made, or the result of one search and then it lies in
    [[max(mmap_base, mmap_min_addr), TASK_SIZE - len]].  For
    [arch_get_unmapped_area_topdown] it is the accepted hint, or the result
    of the one search below the base, in
    [[max(FIRST_USER_ADDRESS, mmap_min_addr), mmap_base - len]], or the
    result of the second search, in [[mmap_base, TASK_SIZE - len]], and
    that only when no address fits below the base.  No call makes more
    searches than these. *)
Theorem result_location {P : platform} (current : task_struct)
    (ratelimit : bool) (filp : option file) (addr len pgoff flags : Z) :
  words_ok -> 0 < ENOMEM < PAGE_SIZE ->
  Z.land flags MAP_FIXED = 0 ->
  let mm := task_mm current in
  let d := do_align_of filp flags in
  let hint := align_hint d addr pgoff in
  let td := topdown_info mm d len pgoff in
  let up := arch_get_unmapped_area current ratelimit filp addr len pgoff flags in
  let down :=
    arch_get_unmapped_area_topdown current ratelimit filp addr len pgoff flags in
  (fst up <> neg_ul ENOMEM ->
   (search_log (snd up) = [] /\ fst up = hint /\ addr <> 0) \/
   (search_log (snd up) = [bottomup_info mm d len pgoff] /\
    Z.max (mm_mmap_base mm) mmap_min_addr <= fst up /\
    fst up + len <= TASK_SIZE)) /\
  (fst down <> neg_ul ENOMEM ->
   (search_log (snd down) = [] /\ fst down = hint /\ addr <> 0) \/
   (search_log (snd down) = [td] /\
    Z.max FIRST_USER_ADDRESS mmap_min_addr <= fst down /\
    fst down + len <= mm_mmap_base mm) \/
   (search_log (snd down) = [td; fallback_info mm td] /\
    (forall b, gap_fits mm td b = false) /\
    mm_mmap_base mm <= fst down /\ fst down + len <= TASK_SIZE)).
Proof.
  intros Hok Hen Hfix mm d hint td up down. split; intros Hne.
  - destruct (bottomup_outcomes Hok current ratelimit filp addr len pgoff
                flags Hfix) as [E | [(Hl & E & Ha & _) | (Hl & Hfit & _)]].
    + contradiction.
    + left. repeat split; assumption.
    + right. apply (gap_fits_iff Hok) in Hfit. simpl in Hfit.
      split; [exact Hl | tauto].
  - destruct (topdown_outcomes Hok current ratelimit filp addr len pgoff
                flags Hfix Hen)
      as [E | [(Hl & E & Ha & _) | [(Hl & Hfit & _) | (Hl & Hfit & Hnone & _)]]].
    + contradiction.
    + left. repeat split; assumption.
    + right. left. apply (gap_fits_iff Hok) in Hfit. simpl in Hfit.
      split; [exact Hl | tauto].
    + right. right. apply (gap_fits_iff Hok) in Hfit. simpl in Hfit.
      split; [exact Hl |]. split; [exact Hnone | tauto].
Qed.

(** In the crowded address space nothing fits below the base: two searches,
    and the result is at or above the base. *)
Lemma result_location_witness :
  let down := @arch_get_unmapped_area_topdown arm (task_of mm_crowded) true None
                0 0x2000 0 0 in
  length (search_log (snd down)) = 2%nat /\
  mm_mmap_base mm_crowded <= fst down.
Proof.
  intros down.
  destruct (proj2 (@result_location arm (task_of mm_crowded) true None
                     0 0x2000 0 0 arm_words_ok
                     ltac:(vm_compute; split; reflexivity) eq_refl))
    as [(_ & _ & H) | [(_ & _ & H) | (Hl & _ & Hb & _)]].
  - vm_compute. discriminate.
  - exfalso. apply H. reflexivity.
  - exfalso. vm_compute in H. apply H. reflexivity.
  - fold down in Hl, Hb. rewrite Hl. split; [reflexivity | exact Hb].
Defined.

(** ** The colour of a placement *)

(** The mask and offset the placement functions hand to the search make
    every address that fits have the colour of the page offset. *)
Lemma fits_colour {P : platform} (mm : mm_struct)
    (info : vm_unmapped_area_info) (pgoff a : Z) :
  words_ok ->
  info_align_mask info = align_mask_of true ->
  info_align_offset info = shl_ul pgoff PAGE_SHIFT ->
  gap_fits mm info a = true ->
  congruent_colour a pgoff.
Proof.
  intros Hok Hmask Hoff Hfit.
  apply (gap_fits_iff Hok) in Hfit. destruct Hfit as (_ & _ & Hpa & Hal & _).
  rewrite Hmask, Hoff in Hal. unfold align_mask_of in Hal.
  apply (fixed_test_congruent a pgoff Hok).
  set (y := sub_ul a (shl_ul pgoff PAGE_SHIFT)) in *.
  assert (Hs : 0 < PAGE_SHIFT < BITS_PER_LONG) by (destruct Hok; assumption).
  pose proof (PAGE_SIZE_pos Hok) as Hp.
  (* the difference of two page boundaries keeps its bits under PAGE_MASK *)
  assert (Hy : y mod PAGE_SIZE = 0).
  { unfold y, sub_ul, shl_ul. rewrite (wrap_mod_PAGE_SIZE Hok).
    apply sub_mod_zero_iff; [lia |]. rewrite (wrap_mod_PAGE_SIZE Hok).
    unfold page_aligned in Hpa. rewrite Hpa.
    rewrite Z.shiftl_mul_pow2, <- (PAGE_SIZE_eq Hok) by lia.
    symmetry. apply Z.mod_mul. lia. }
  assert (Hkeep : Z.land y PAGE_MASK = y).
  { unfold PAGE_MASK. rewrite (page_low_bits Hok).
    rewrite (land_not_ul_ones Hok) by (try apply (wrap_ulong Hok); lia).
    rewrite <- (PAGE_SIZE_eq Hok), Hy. lia. }
  rewrite Z.land_assoc, Hkeep in Hal. exact Hal.
Qed.

(** X7.  Colour of the result.  When colour alignment applies (the caches
    alias and the mapping is backed by a file or shared), every address
    returned for a request without [MAP_FIXED], by the hint path or by a
    search, is congruent to [pgoff * PAGE_SIZE] modulo [SHMLBA]; so is the
    address returned for a shared [MAP_FIXED] request.  Error codes
    apart. *)
Theorem result_colour {P : platform} (current : task_struct)
    (ratelimit : bool) (filp : option file) (addr len pgoff flags : Z) :
  words_ok -> 0 < ENOMEM < PAGE_SIZE ->
  do_align_of filp flags = true ->
  Z.land flags MAP_FIXED = 0 \/ Z.land flags MAP_SHARED <> 0 ->
  let up := arch_get_unmapped_area current ratelimit filp addr len pgoff flags in
  let down :=
    arch_get_unmapped_area_topdown current ratelimit filp addr len pgoff flags in
  (fst up <> neg_ul ENOMEM -> fst up <> neg_ul EINVAL ->
   congruent_colour (fst up) pgoff) /\
  (fst down <> neg_ul ENOMEM -> fst down <> neg_ul EINVAL ->
   congruent_colour (fst down) pgoff).
Proof.
  intros Hok Hen Hd Hcase up down.
  assert (Hhint : congruent_colour (align_hint true addr pgoff) pgoff).
  { unfold congruent_colour. simpl. rewrite (COLOUR_ALIGN_congruent Hok).
    rewrite Z.shiftl_mul_pow2 by (destruct Hok; lia).
    rewrite (PAGE_SIZE_eq Hok). reflexivity. }
  destruct (Z.eq_dec (Z.land flags MAP_FIXED) 0) as [Hfix | Hfix].
  - (* no MAP_FIXED: the hint or a search *)
    split; intros Hne _.
    + destruct (bottomup_outcomes Hok current ratelimit filp addr len pgoff
                  flags Hfix) as [E | [(_ & E & _) | (_ & Hfit & _)]].
      * contradiction.
      * unfold up. rewrite E, Hd. exact Hhint.
      * rewrite Hd in Hfit. apply (fits_colour _ _ pgoff _ Hok) in Hfit;
          [exact Hfit | reflexivity | reflexivity].
    + destruct (topdown_outcomes Hok current ratelimit filp addr len pgoff
                  flags Hfix Hen)
        as [E | [(_ & E & _) | [(_ & Hfit & _) | (_ & Hfit & _)]]].
      * contradiction.
      * unfold down. rewrite E, Hd. exact Hhint.
      * rewrite Hd in Hfit. apply (fits_colour _ _ pgoff _ Hok) in Hfit;
          [exact Hfit | reflexivity | reflexivity].
      * rewrite Hd in Hfit. apply (fits_colour _ _ pgoff _ Hok) in Hfit;
          [exact Hfit | reflexivity | reflexivity].
  - (* MAP_FIXED and shared: the address passed the test of the branch *)
    destruct Hcase as [Hc | Hshared]; [contradiction |].
    assert (Hal : cache_is_vipt_aliasing = true).
    { unfold do_align_of in Hd. destruct cache_is_vipt_aliasing;
        [reflexivity | discriminate]. }
    assert (Hf : nonzero (Z.land flags MAP_FIXED) = true)
      by (unfold nonzero; apply negb_true_iff, Z.eqb_neq, Hfix).
    pose proof (fixed_misaligned_iff addr pgoff flags Hok) as Hiff.
    unfold up, down.
    rewrite arch_get_unmapped_area_eq, arch_get_unmapped_area_topdown_eq, Hf.
    assert (Hgood : fixed_misaligned addr pgoff flags = false ->
                    congruent_colour addr pgoff).
    { intros E. unfold congruent_colour.
      destruct (Z.eq_dec (addr mod SHMLBA) ((pgoff * PAGE_SIZE) mod SHMLBA))
        as [H | H]; [exact H |].
      assert (fixed_misaligned addr pgoff flags = true)
        by (apply Hiff; repeat split; assumption).
      congruence. }
    destruct (len >? sub_ul TASK_SIZE mmap_min_addr);
      destruct (fixed_misaligned addr pgoff flags); cbn [fst];
      split; intros H1 H2; try contradiction; apply Hgood; reflexivity.
Qed.

(** A shared mapping of page offset 3, with and without a hint: the
    addresses returned have colour 3. *)
Lemma result_colour_witness :
  @congruent_colour arm
     (fst (@arch_get_unmapped_area arm (task_of mm_legacy) true None
             0 0x2000 3 (@MAP_SHARED arm))) 3 /\
  @congruent_colour arm
     (fst (@arch_get_unmapped_area_topdown arm (task_of mm_topdown) true None
             0x20001234 0x2000 3 (@MAP_SHARED arm))) 3.
Proof.
  split.
  - refine (proj1 (@result_colour arm (task_of mm_legacy) true None
                     0 0x2000 3 _ arm_words_ok _ _ _) _ _).
    + vm_compute. split; reflexivity.
    + reflexivity.
    + left. reflexivity.
    + vm_compute. discriminate.
    + vm_compute. discriminate.
  - refine (proj2 (@result_colour arm (task_of mm_topdown) true None
                     0x20001234 0x2000 3 _ arm_words_ok _ _ _) _ _).
    + vm_compute. split; reflexivity.
    + reflexivity.
    + left. reflexivity.
    + vm_compute. discriminate.
    + vm_compute. discriminate.
Defined.

(** X8.  How far [COLOUR_ALIGN] moves an address.  When the addition does
    not overflow, the result less the colour is the least multiple of
    [SHMLBA] at or above the address: the result lies in
    [[a + colour, a + colour + SHMLBA)].  An address that already has the
    colour, other than 0, is therefore moved up by a whole granule. *)
Theorem COLOUR_ALIGN_bounds {P : platform} (a o : Z) :
  words_ok -> 0 <= a -> a + SHMLBA - 1 < 2 ^ BITS_PER_LONG ->
  (COLOUR_ALIGN a o - colour o) mod SHMLBA = 0 /\
  a + colour o <= COLOUR_ALIGN a o < a + colour o + SHMLBA /\
  (forall m, m mod SHMLBA = 0 -> a <= m -> COLOUR_ALIGN a o - colour o <= m) /\
  (a mod SHMLBA = colour o -> colour o <> 0 ->
   COLOUR_ALIGN a o = a + SHMLBA).
Proof.
  intros Hok Ha Hno.
  destruct (COLOUR_ALIGN_shape Hok a o) as (q & Hq & Hroom & Hx & Hca).
  pose proof (colour_range Hok o) as Hc.
  assert (Hpos : 0 < SHMLBA) by (destruct Hok; lia).
  rewrite wrap_small in Hx by (unfold ulong; lia).
  pose proof (Z.mod_pos_bound (a + SHMLBA - 1) SHMLBA Hpos) as Hr.
  rewrite Hca. replace (q * SHMLBA + colour o - colour o) with (q * SHMLBA) by lia.
  split; [apply Z.mod_mul; lia |]. split; [lia |]. split.
  - intros m Hm Ham. apply Z.mod_divide in Hm; [| lia]. destruct Hm as [k Hk].
    subst m. apply Z.mul_le_mono_nonneg_r; [lia |].
    assert (q < k + 1) by (apply (Z.mul_lt_mono_pos_r SHMLBA); lia). lia.
  - intros Hcol Hnz.
    (* a = p * SHMLBA + colour with a colour in (0, SHMLBA) *)
    assert (Hnz0 : SHMLBA <> 0) by lia.
    pose proof (Z.div_mod a SHMLBA Hnz0) as Hdm. rewrite Hcol in Hdm.
    assert (Hq1 : q = a / SHMLBA + 1).
    { assert (q < a / SHMLBA + 2)
        by (apply (Z.mul_lt_mono_pos_r SHMLBA); lia).
      assert (a / SHMLBA < q)
        by (apply (Z.mul_lt_mono_pos_r SHMLBA); lia).
      lia. }
    subst q. lia.
Qed.

Lemma COLOUR_ALIGN_bounds_witness :
  @COLOUR_ALIGN arm 0x9000 1 = 0x9000 + 16384.
Proof.
  refine (proj2 (proj2 (proj2 (@COLOUR_ALIGN_bounds arm 0x9000 1 arm_words_ok
                                 _ _))) _ _).
  - discriminate.
  - reflexivity.
  - reflexivity.
  - vm_compute. discriminate.
Defined.

(** ** The physical range checks *)

(** X9.  [valid_phys_addr_range] on ranges that do not overflow: a range
    [[addr, addr+size)] is accepted exactly when it starts at or above
    [PHYS_OFFSET] and ends at or below the byte after
    [__pa(high_memory - 1)]; so every range inside an accepted range is
    accepted, and the empty range at the end of low memory is. *)
Theorem valid_phys_addr_range_inside
    (PHYS_ADDR_BITS PHYS_OFFSET pa_last addr size : Z) :
  0 <= addr -> 0 <= size -> addr + size < 2 ^ PHYS_ADDR_BITS ->
  0 <= pa_last -> pa_last + 1 < 2 ^ PHYS_ADDR_BITS ->
  let valid := valid_phys_addr_range PHYS_ADDR_BITS PHYS_OFFSET pa_last in
  (valid addr size = 1 <->
   PHYS_OFFSET <= addr /\ addr + size <= pa_last + 1) /\
  (valid addr size <> 1 -> valid addr size = 0) /\
  (valid addr size = 1 ->
   forall addr' size',
     addr <= addr' -> 0 <= size' -> addr' + size' <= addr + size ->
     valid addr' size' = 1).
Proof.
  intros Ha Hs Hno Hl Hlno valid.
  assert (Hchar : forall x n,
             0 <= x -> 0 <= n -> x + n < 2 ^ PHYS_ADDR_BITS ->
             (valid x n = 1 <-> PHYS_OFFSET <= x /\ x + n <= pa_last + 1) /\
             (valid x n <> 1 -> valid x n = 0)).
  { intros x n Hx Hn Hxn. unfold valid, valid_phys_addr_range, phys_wrap.
    rewrite !Z.mod_small by lia.
    destruct (Z.ltb_spec x PHYS_OFFSET);
      [| destruct (Z.gtb_spec (x + n) (pa_last + 1))];
      (split; [split; [discriminate || (intros _; lia) | lia || reflexivity]
              | congruence || reflexivity]). }
  destruct (Hchar addr size Ha Hs Hno) as [Hiff Hzero].
  split; [exact Hiff |]. split; [exact Hzero |].
  intros Hv addr' size' Hle Hs' Hin.
  apply Hiff in Hv. apply (Hchar addr' size'); lia.
Qed.

(** Low memory of 768 MiB from [0x80000000]: its last page is accepted, the
    page after it is not. *)
Lemma valid_phys_addr_range_inside_witness :
  valid_phys_addr_range 32 0x80000000 0xafffffff 0xaffff000 0x1000 = 1 /\
  valid_phys_addr_range 32 0x80000000 0xafffffff 0xb0000000 0x1000 = 0.
Proof.
  destruct (valid_phys_addr_range_inside 32 0x80000000 0xafffffff
              0xaffff000 0x1000) as (H1 & _); try (vm_compute; congruence).
  destruct (valid_phys_addr_range_inside 32 0x80000000 0xafffffff
              0xb0000000 0x1000) as (H2 & H3 & _); try (vm_compute; congruence).
  split.
  - apply H1. vm_compute. split; discriminate.
  - apply H3. intros E. apply H2 in E. vm_compute in E. destruct E as [_ E].
    apply E. reflexivity.
Defined.

(** X10.  [valid_phys_addr_range] on a range that runs past the end of the
    [phys_addr_t] space: the sum [addr + size] wraps, and the range is
    accepted whenever it starts at or above [PHYS_OFFSET] and the wrapped
    end is at or below the byte after [__pa(high_memory - 1)], although no
    byte of it need lie in low memory. *)
Theorem valid_phys_addr_range_wraps
    (PHYS_ADDR_BITS PHYS_OFFSET pa_last addr size : Z) :
  PHYS_OFFSET <= addr -> addr < 2 ^ PHYS_ADDR_BITS ->
  0 <= size < 2 ^ PHYS_ADDR_BITS ->
  2 ^ PHYS_ADDR_BITS <= addr + size ->
  0 <= pa_last -> pa_last + 1 < 2 ^ PHYS_ADDR_BITS ->
  (valid_phys_addr_range PHYS_ADDR_BITS PHYS_OFFSET pa_last addr size = 1 <->
   addr + size - 2 ^ PHYS_ADDR_BITS <= pa_last + 1) /\
  (pa_last < addr ->
   addr + size - 2 ^ PHYS_ADDR_BITS <= pa_last + 1 ->
   valid_phys_addr_range PHYS_ADDR_BITS PHYS_OFFSET pa_last addr size = 1 /\
   forall x, addr <= x < 2 ^ PHYS_ADDR_BITS -> ~ (PHYS_OFFSET <= x <= pa_last)).
Proof.
  intros Hoff Ha Hs Hwrap Hl Hlno.
  assert (Hsum : (addr + size) mod 2 ^ PHYS_ADDR_BITS
                 = addr + size - 2 ^ PHYS_ADDR_BITS).
  { symmetry. apply Z.mod_unique with (q := 1); [left; lia | lia]. }
  assert (Hiff : valid_phys_addr_range PHYS_ADDR_BITS PHYS_OFFSET pa_last
                   addr size = 1 <->
                 addr + size - 2 ^ PHYS_ADDR_BITS <= pa_last + 1).
  { unfold valid_phys_addr_range, phys_wrap.
    rewrite Hsum, (Z.mod_small (pa_last + 1)) by lia.
    destruct (Z.ltb_spec addr PHYS_OFFSET); [lia |].
    destruct (Z.gtb_spec (addr + size - 2 ^ PHYS_ADDR_BITS) (pa_last + 1));
      split; intros; lia || congruence. }
  split; [exact Hiff |].
  intros Hbeyond Hend. split; [apply Hiff, Hend | intros x Hx; lia].
Qed.

(** Two pages from the last page of a 32-bit physical space: accepted. *)
Lemma valid_phys_addr_range_wraps_witness :
  valid_phys_addr_range 32 0x80000000 0xafffffff 0xfffff000 0x2000 = 1.
Proof.
  refine (proj2 (proj1 (valid_phys_addr_range_wraps 32 0x80000000 0xafffffff
                          0xfffff000 0x2000 _ _ _ _ _ _)) _);
    vm_compute; try split; congruence.
Defined.

(** X11.  [valid_mmap_phys_addr_range] when the page count does not
    overflow: a range is accepted exactly when its first frame plus its
    number of whole pages is at most one more than the last frame,
    [PHYS_MASK >> PAGE_SHIFT]; then every whole page of the range has its
    physical address inside [PHYS_MASK].  A trailing part of a page does
    not count: a range shorter than a page is accepted up to and including
    the frame after the last one. *)
Theorem valid_mmap_phys_addr_range_spec {P : platform}
    (PHYS_ADDR_BITS PHYS_MASK pfn size : Z) :
  words_ok ->
  0 < PHYS_ADDR_BITS -> 0 <= PHYS_MASK < 2 ^ PHYS_ADDR_BITS ->
  0 <= pfn -> 0 <= size -> pfn + size / PAGE_SIZE < 2 ^ BITS_PER_LONG ->
  let valid := valid_mmap_phys_addr_range PHYS_ADDR_BITS PHYS_MASK pfn size in
  (valid = 1 <-> pfn + size / PAGE_SIZE <= 1 + PHYS_MASK / PAGE_SIZE) /\
  (valid <> 1 -> valid = 0) /\
  (valid = 1 ->
   forall i, 0 <= i < size / PAGE_SIZE ->
             (pfn + i) * PAGE_SIZE <= PHYS_MASK) /\
  (size < PAGE_SIZE -> (valid = 1 <-> pfn <= 1 + PHYS_MASK / PAGE_SIZE)).
Proof.
  intros Hok Hb Hm Hp Hs Hno valid.
  assert (Hsh : 0 < PAGE_SHIFT < BITS_PER_LONG) by (destruct Hok; assumption).
  pose proof (PAGE_SIZE_pos Hok) as Hpp.
  assert (Hq : 0 <= size / PAGE_SIZE) by (apply Z.div_pos; lia).
  assert (Hmq : 0 <= PHYS_MASK / PAGE_SIZE <= PHYS_MASK).
  { split; [apply Z.div_pos; lia |]. apply Z.div_le_upper_bound; nia. }
  assert (Hpow : 2 <= 2 ^ PHYS_ADDR_BITS).
  { change 2 with (2 ^ 1) at 1. apply Z.pow_le_mono_r; lia. }
  assert (Hbound : 1 + PHYS_MASK / PAGE_SIZE < 2 ^ PHYS_ADDR_BITS).
  { destruct (Z.eq_dec PHYS_MASK 0) as [-> | Hnz];
      [rewrite Z.div_0_l by lia; lia |].
    assert (PAGE_SIZE >= 2).
    { rewrite (PAGE_SIZE_eq Hok). change 2 with (2 ^ 1) at 2.
      apply Z.le_ge, Z.pow_le_mono_r; lia. }
    assert (PHYS_MASK / PAGE_SIZE < PHYS_MASK)
      by (apply Z.div_lt_upper_bound; nia).
    lia. }
  assert (Hiff : valid = 1 <-> pfn + size / PAGE_SIZE <= 1 + PHYS_MASK / PAGE_SIZE).
  { unfold valid, valid_mmap_phys_addr_range, phys_wrap, add_ul.
    rewrite !Z.shiftr_div_pow2, <- (PAGE_SIZE_eq Hok) by lia.
    rewrite wrap_small by (unfold ulong; lia).
    rewrite Z.mod_small by lia.
    destruct (Z.leb_spec (pfn + size / PAGE_SIZE) (1 + PHYS_MASK / PAGE_SIZE));
      split; intros; lia || congruence. }
  split; [exact Hiff |]. split; [| split].
  - unfold valid, valid_mmap_phys_addr_range.
    destruct (_ <=? _); [congruence | reflexivity].
  - intros Hv i Hi. apply Hiff in Hv.
    assert (pfn + i <= PHYS_MASK / PAGE_SIZE) by lia.
    pose proof (Z.mul_div_le PHYS_MASK PAGE_SIZE Hpp). nia.
  - intros Hlt. rewrite Hiff, Z.div_small by lia. lia.
Qed.

(** A 32-bit physical space has [0x100000] frames: a page at the last frame
    is accepted, and so are 100 bytes at the frame after it. *)
Lemma valid_mmap_phys_addr_range_spec_witness :
  @valid_mmap_phys_addr_range arm 32 0xffffffff 0xfffff 0x1000 = 1 /\
  @valid_mmap_phys_addr_range arm 32 0xffffffff 0x100000 100 = 1.
Proof.
  split.
  - refine (proj2 (proj1 (@valid_mmap_phys_addr_range_spec arm 32 0xffffffff
                            0xfffff 0x1000 arm_words_ok _ _ _ _ _)) _);
      vm_compute; try split; congruence.
  - refine (proj2 (proj1 (@valid_mmap_phys_addr_range_spec arm 32 0xffffffff
                            0x100000 100 arm_words_ok _ _ _ _ _)) _);
      vm_compute; try split; congruence.
Defined.

(** ** From the layout to the placements *)

(** The random factor of [arch_pick_mmap_layout]. *)
Lemma random_factor_range {P : platform} (current : task_struct) (random : Z) :
  words_ok -> 0 <= mmap_rnd_bits ->
  mmap_rnd_bits + PAGE_SHIFT <= BITS_PER_LONG ->
  let rf := if nonzero (Z.land (task_flags current) PF_RANDOMIZE)
            then arch_mmap_rnd random else 0 in
  0 <= rf <= (2 ^ mmap_rnd_bits - 1) * PAGE_SIZE /\ page_aligned rf.
Proof.
  intros Hok Hb Hfit rf. unfold rf.
  pose proof (PAGE_SIZE_pos Hok) as Hp.
  assert (Hpb : 0 < 2 ^ mmap_rnd_bits) by (apply Z.pow_pos_nonneg; lia).
  destruct (nonzero (Z.land (task_flags current) PF_RANDOMIZE)).
  - rewrite (arch_mmap_rnd_eq random Hok Hb Hfit).
    pose proof (Z.mod_pos_bound random (2 ^ mmap_rnd_bits) Hpb).
    split; [nia |]. unfold page_aligned. apply Z.mod_mul. lia.
  - split; [nia |]. unfold page_aligned. apply Z.mod_0_l. lia.
Qed.

(** X12.  The base [arch_pick_mmap_layout] installs.  In the top-down
    layout, when the random span [(2^mmap_rnd_bits - 1) * PAGE_SIZE] leaves
    [MAX_GAP] and [mmap_min_addr] below a page-aligned [TASK_SIZE], the base
    is a page boundary between [mmap_min_addr] and [TASK_SIZE], at least
    [TASK_SIZE - MAX_GAP] less the span, and with at least [MIN_GAP] left
    above it when [MIN_GAP] is a multiple of the page size.  In the legacy
    layout, when nothing overflows, the base lies between
    [TASK_UNMAPPED_BASE] and [TASK_UNMAPPED_BASE] plus the span, and is a
    page boundary when [TASK_UNMAPPED_BASE] is. *)
Theorem picked_layout_base {P : platform} (current : task_struct)
    (random : Z) (mm : mm_struct) :
  words_ok -> limits_ok -> page_aligned TASK_SIZE ->
  128 * 1024 * 1024 < 2 ^ BITS_PER_LONG -> MIN_GAP <= MAX_GAP ->
  0 <= mmap_rnd_bits -> mmap_rnd_bits + PAGE_SHIFT <= BITS_PER_LONG ->
  let mm' := arch_pick_mmap_layout current random mm in
  let span := (2 ^ mmap_rnd_bits - 1) * PAGE_SIZE in
  (mmap_is_legacy current = 0 ->
   span <= TASK_SIZE - MAX_GAP - mmap_min_addr ->
   mm_get_unmapped_area mm' = fn_arch_get_unmapped_area_topdown /\
   page_aligned (mm_mmap_base mm') /\
   mmap_min_addr <= mm_mmap_base mm' <= TASK_SIZE /\
   TASK_SIZE - MAX_GAP - span <= mm_mmap_base mm' /\
   (page_aligned MIN_GAP -> mm_mmap_base mm' + MIN_GAP <= TASK_SIZE)) /\
  (mmap_is_legacy current <> 0 ->
   0 <= TASK_UNMAPPED_BASE -> TASK_UNMAPPED_BASE + span < 2 ^ BITS_PER_LONG ->
   mm_get_unmapped_area mm' = fn_arch_get_unmapped_area /\
   TASK_UNMAPPED_BASE <= mm_mmap_base mm' <= TASK_UNMAPPED_BASE + span /\
   (page_aligned TASK_UNMAPPED_BASE -> page_aligned (mm_mmap_base mm'))).
Proof.
  intros Hok [Hmin Ht] Hta Hw Hle Hb Hfit mm' span.
  destruct (random_factor_range current random Hok Hb Hfit) as [Hrf Hrfa].
  unfold mm', arch_pick_mmap_layout.
  set (rf := if nonzero (Z.land (task_flags current) PF_RANDOMIZE)
             then arch_mmap_rnd random else 0) in *.
  fold span in Hrf.
  pose proof (PAGE_SIZE_pos Hok) as Hp.
  split.
  - intros Hleg Hspan. unfold nonzero. rewrite Hleg. simpl.
    assert (Ht' : 0 <= TASK_SIZE < 2 ^ BITS_PER_LONG) by lia.
    assert (Hr' : 0 <= rf <= TASK_SIZE - MAX_GAP) by lia.
    destruct (mmap_base_window current rf Hok Ht' Hta Hw Hle Hr')
      as (Hmg & Hgap & Hbase & Hno).
    rewrite Hbase.
    assert (Hx0 : 0 <= TASK_SIZE - stack_gap current - rf) by lia.
    assert (Hx1 : TASK_SIZE - stack_gap current - rf <= TASK_SIZE) by lia.
    assert (Ht1 : TASK_SIZE < 2 ^ BITS_PER_LONG) by lia.
    pose proof (PAGE_ALIGN_le_boundary _ TASK_SIZE Hok Hx0 Hx1 Ht1 Hta) as Htop.
    destruct (PAGE_ALIGN_round_up _ Hok Hx0 Hno) as [Hr Hal].
    repeat split; try assumption; try lia.
    intros Hma.
    (* TASK_SIZE - MIN_GAP is a page boundary at or above the address *)
    assert (Hb2 : page_aligned (TASK_SIZE - MIN_GAP)).
    { unfold page_aligned in *.
      rewrite Zminus_mod, Hta, Hma. apply Z.mod_0_l. lia. }
    assert (Hx2 : TASK_SIZE - stack_gap current - rf <= TASK_SIZE - MIN_GAP)
      by lia.
    assert (Ht2 : TASK_SIZE - MIN_GAP < 2 ^ BITS_PER_LONG) by lia.
    pose proof (PAGE_ALIGN_le_boundary _ _ Hok Hx0 Hx2 Ht2 Hb2). lia.
  - intros Hleg Hub Hno.
    assert (Hnz : nonzero (mmap_is_legacy current) = true)
      by (unfold nonzero; apply negb_true_iff, Z.eqb_neq, Hleg).
    rewrite Hnz. simpl. unfold add_ul.
    rewrite wrap_small by (unfold ulong; lia).
    repeat split; try lia.
    intros Hua. unfold page_aligned in *.
    rewrite Zplus_mod, Hua, Hrfa. apply Z.mod_0_l. lia.
Qed.

(** A randomized task with the default stack limit gets a top-down base in
    the last 129 MiB below [TASK_SIZE]; with an unlimited stack it gets a
    legacy base in the first MiB from [TASK_UNMAPPED_BASE]. *)
Lemma picked_layout_base_witness :
  0xb6f01000 <= mm_mmap_base (@arch_pick_mmap_layout arm task_randomized
                                0x12345 mm_legacy) <= 0xb7000000 /\
  0x40000000 <= mm_mmap_base (@arch_pick_mmap_layout arm task_unlimited_stack
                                0x12345 mm_legacy) <= 0x400ff000.
Proof.
  split.
  - destruct (proj1 (@picked_layout_base arm task_randomized 0x12345 mm_legacy
                       arm_words_ok arm_limits_ok eq_refl eq_refl
                       ltac:(vm_compute; discriminate)
                       ltac:(discriminate) ltac:(discriminate)))
      as (_ & _ & _ & Hlow & Hhigh).
    + reflexivity.
    + vm_compute. discriminate.
    + specialize (Hhigh eq_refl).
      change (@MIN_GAP arm) with 0x8000000 in Hhigh.
      change (@TASK_SIZE arm) with 0xbf000000 in Hhigh, Hlow.
      split; [| lia].
      (* the stack limit of 8 MiB is below MIN_GAP: the base is computed *)
      vm_compute. discriminate.
  - destruct (proj2 (@picked_layout_base arm task_unlimited_stack 0x12345
                       mm_legacy arm_words_ok arm_limits_ok eq_refl eq_refl
                       ltac:(vm_compute; discriminate)
                       ltac:(discriminate) ltac:(discriminate)))
      as (_ & Hr & _).
    + vm_compute. discriminate.
    + discriminate.
    + reflexivity.
    + exact Hr.
Defined.

(** An address that fits a search between the floor and the top is a valid
    placement. *)
Lemma fits_placed_ok {P : platform} (mm : mm_struct)
    (info : vm_unmapped_area_info) (a : Z) :
  words_ok -> mm_ok mm = true ->
  mmap_min_addr <= info_low_limit info ->
  info_high_limit info <= TASK_SIZE ->
  gap_fits mm info a = true ->
  placed_ok mm (info_length info) a.
Proof.
  intros Hok Hmm Hlo Hhi Hfit.
  apply (gap_fits_iff Hok) in Hfit.
  destruct Hfit as (Hl & Hh & Hpa & _ & Hfree).
  pose proof (proj1 (gap_free_iff _ _ _) Hfree) as Hclear.
  unfold placed_ok. repeat split; try lia; try assumption.
  apply (gap_free_no_overlap Hok _ _ _ Hmm Hclear).
Qed.

(** A success of [arch_get_unmapped_area] without [MAP_FIXED] is a valid
    placement. *)
Lemma bottomup_placed {P : platform} (current : task_struct)
    (ratelimit : bool) (filp : option file) (addr len pgoff flags : Z) :
  words_ok -> limits_ok -> (PAGE_SIZE | SHMLBA) ->
  mm_ok (task_mm current) = true -> 0 <= len ->
  Z.land flags MAP_FIXED = 0 ->
  let run := arch_get_unmapped_area current ratelimit filp addr len pgoff flags in
  fst run <> neg_ul ENOMEM -> placed_ok (task_mm current) len (fst run).
Proof.
  intros Hok Hlim Hdiv Hmm Hlen Hfix run Hne.
  destruct (bottomup_outcomes Hok current ratelimit filp addr len pgoff
              flags Hfix) as [E | [(_ & E & _ & Hl & Hh) | (_ & Hfit & _)]].
  - contradiction.
  - unfold run. rewrite E. apply (hint_placed_ok Hok Hlim); assumption.
  - apply (fits_placed_ok (task_mm current)
             (bottomup_info (task_mm current) (do_align_of filp flags) len pgoff)
             (fst run) Hok Hmm); simpl; try assumption; lia.
Qed.

(** The same for [arch_get_unmapped_area_topdown] with a base between the
    floor and the top. *)
Lemma topdown_placed {P : platform} (current : task_struct)
    (ratelimit : bool) (filp : option file) (addr len pgoff flags : Z) :
  words_ok -> limits_ok -> (PAGE_SIZE | SHMLBA) -> 0 < ENOMEM < PAGE_SIZE ->
  mm_ok (task_mm current) = true -> 0 <= len ->
  mmap_min_addr <= mm_mmap_base (task_mm current) <= TASK_SIZE ->
  Z.land flags MAP_FIXED = 0 ->
  let run :=
    arch_get_unmapped_area_topdown current ratelimit filp addr len pgoff flags in
  fst run <> neg_ul ENOMEM -> placed_ok (task_mm current) len (fst run).
Proof.
  intros Hok Hlim Hdiv Hen Hmm Hlen Hbase Hfix run Hne.
  destruct (topdown_outcomes Hok current ratelimit filp addr len pgoff
              flags Hfix Hen)
    as [E | [(_ & E & _ & Hl & Hh) | [(_ & Hfit & _) | (_ & Hfit & _)]]].
  - contradiction.
  - unfold run. rewrite E. apply (hint_placed_ok Hok Hlim); assumption.
  - apply (fits_placed_ok (task_mm current)
             (topdown_info (task_mm current) (do_align_of filp flags) len pgoff)
             (fst run) Hok Hmm); simpl; try assumption; lia.
  - apply (fits_placed_ok (task_mm current)
             (fallback_info (task_mm current)
                (topdown_info (task_mm current) (do_align_of filp flags)
                              len pgoff))
             (fst run) Hok Hmm); simpl; try assumption; lia.
Qed.

(** X13.  From the layout to the placement.  Let [arch_pick_mmap_layout]
    set up an address space whose regions are words in the order of their
    starts, on a platform where the random span leaves [MAX_GAP] and
    [mmap_min_addr] below a page-aligned [TASK_SIZE].  Then every request
    without [MAP_FIXED] made through the function the layout installed,
    legacy or top-down, either fails with [-ENOMEM] or returns a page
    boundary in [[mmap_min_addr, TASK_SIZE - len]] clear of every region
    and its guard page. *)
Theorem picked_layout_places {P : platform} (current : task_struct)
    (random : Z) (mm : mm_struct) (ratelimit : bool) (filp : option file)
    (addr len pgoff flags : Z) :
  words_ok -> limits_ok -> (PAGE_SIZE | SHMLBA) -> 0 < ENOMEM < PAGE_SIZE ->
  page_aligned TASK_SIZE ->
  128 * 1024 * 1024 < 2 ^ BITS_PER_LONG -> MIN_GAP <= MAX_GAP ->
  0 <= mmap_rnd_bits -> mmap_rnd_bits + PAGE_SHIFT <= BITS_PER_LONG ->
  (2 ^ mmap_rnd_bits - 1) * PAGE_SIZE <= TASK_SIZE - MAX_GAP - mmap_min_addr ->
  mm_ok mm = true -> 0 <= len ->
  Z.land flags MAP_FIXED = 0 ->
  let mm' := arch_pick_mmap_layout current random mm in
  let run :=
    call_get_unmapped_area (with_mm current mm') ratelimit filp addr len pgoff
                           flags in
  fst run <> neg_ul ENOMEM -> placed_ok mm' len (fst run).
Proof.
  intros Hok Hlim Hdiv Hen Hta Hw Hle Hb Hfit Hspan Hmm Hlen Hfix mm' run Hne.
  destruct (random_factor_range current random Hok Hb Hfit) as [Hrf _].
  assert (Hmm' : mm_ok mm' = true).
  { unfold mm', arch_pick_mmap_layout.
    destruct (nonzero (mmap_is_legacy current)); exact Hmm. }
  unfold run, call_get_unmapped_area in *. cbn [task_mm with_mm] in *.
  destruct (mm_get_unmapped_area mm') eqn:Hfn.
  - apply (bottomup_placed (with_mm current mm') ratelimit filp addr len pgoff
             flags Hok Hlim Hdiv Hmm' Hlen Hfix Hne).
  - (* the top-down function is installed only with the top-down base *)
    assert (Hbase : mmap_min_addr <= mm_mmap_base mm' <= TASK_SIZE).
    { unfold mm', arch_pick_mmap_layout in Hfn |- *.
      destruct (nonzero (mmap_is_legacy current)); [discriminate Hfn |].
      cbn [mm_mmap_base].
      destruct Hlim as [Hmin Ht].
      assert (Ht' : 0 <= TASK_SIZE < 2 ^ BITS_PER_LONG) by lia.
      set (rf := if nonzero (Z.land (task_flags current) PF_RANDOMIZE)
                 then arch_mmap_rnd random else 0) in *.
      assert (Hr' : 0 <= rf <= TASK_SIZE - MAX_GAP) by lia.
      destruct (mmap_base_window current rf Hok Ht' Hta Hw Hle Hr')
        as (Hmg & Hgap & Hbase & Hno).
      rewrite Hbase.
      assert (Hx0 : 0 <= TASK_SIZE - stack_gap current - rf) by lia.
      assert (Hx1 : TASK_SIZE - stack_gap current - rf <= TASK_SIZE) by lia.
      assert (Ht1 : TASK_SIZE < 2 ^ BITS_PER_LONG) by lia.
      pose proof (PAGE_ALIGN_le_boundary _ TASK_SIZE Hok Hx0 Hx1 Ht1 Hta).
      destruct (PAGE_ALIGN_round_up _ Hok Hx0 Hno) as [Hr Hal]. lia. }
    apply (topdown_placed (with_mm current mm') ratelimit filp addr len pgoff
             flags Hok Hlim Hdiv Hen Hmm' Hlen Hbase Hfix Hne).
Qed.

(** The randomized task: layout, then three pages without a hint. *)
Lemma picked_layout_places_witness :
  let mm' := @arch_pick_mmap_layout arm task_randomized 0x12345 mm_legacy in
  @placed_ok arm mm' 0x3000
     (fst (@call_get_unmapped_area arm (with_mm task_randomized mm') true None
             0 0x3000 0 0)).
Proof.
  refine (@picked_layout_places arm task_randomized 0x12345 mm_legacy true None
            0 0x3000 0 0 arm_words_ok arm_limits_ok arm_page_divides_SHMLBA
            _ eq_refl eq_refl _ _ _ _ eq_refl _ eq_refl _).
  - vm_compute. split; reflexivity.
  - vm_compute. discriminate.
  - discriminate.
  - discriminate.
  - vm_compute. discriminate.
  - discriminate.
  - vm_compute. discriminate.
Defined.

(** ** The base against the stack limit *)

Lemma stack_gap_monotone {P : platform} (c1 c2 : task_struct) :
  MIN_GAP <= MAX_GAP ->
  rlimit_stack c1 <= rlimit_stack c2 -> stack_gap c1 <= stack_gap c2.
Proof.
  intros Hle H. unfold stack_gap.
  destruct (Z.ltb_spec (rlimit_stack c1) MIN_GAP);
    destruct (Z.ltb_spec (rlimit_stack c2) MIN_GAP);
    destruct (Z.gtb_spec (rlimit_stack c1) MAX_GAP);
    destruct (Z.gtb_spec (rlimit_stack c2) MAX_GAP); lia.
Qed.

(** X14.  A larger stack limit or a larger random offset never raises the
    top-down base: for two tasks with [rlimit_stack c1 <= rlimit_stack c2]
    and offsets [r1 <= r2], [mmap_base c2 r2 <= mmap_base c1 r1].  All
    stack limits up to [MIN_GAP] give one base, and all from [MAX_GAP] on
    give one base. *)
Theorem mmap_base_antitone {P : platform} (c1 c2 : task_struct) (r1 r2 : Z) :
  words_ok ->
  0 <= TASK_SIZE < 2 ^ BITS_PER_LONG -> page_aligned TASK_SIZE ->
  128 * 1024 * 1024 < 2 ^ BITS_PER_LONG ->
  MIN_GAP <= MAX_GAP ->
  0 <= r1 -> r1 <= r2 -> r2 <= TASK_SIZE - MAX_GAP ->
  (rlimit_stack c1 <= rlimit_stack c2 -> mmap_base c2 r2 <= mmap_base c1 r1) /\
  (rlimit_stack c1 <= MIN_GAP -> rlimit_stack c2 <= MIN_GAP ->
   mmap_base c1 r1 = mmap_base c2 r1) /\
  (MAX_GAP <= rlimit_stack c1 -> MAX_GAP <= rlimit_stack c2 ->
   mmap_base c1 r1 = mmap_base c2 r1).
Proof.
  intros Hok Ht Hta Hw Hle Hr1 Hr12 Hr2.
  assert (Hra : 0 <= r1 <= TASK_SIZE - MAX_GAP) by lia.
  assert (Hrb : 0 <= r2 <= TASK_SIZE - MAX_GAP) by lia.
  destruct (mmap_base_window c1 r1 Hok Ht Hta Hw Hle Hra)
    as (_ & Hg1 & Hb1 & Hno1).
  destruct (mmap_base_window c2 r2 Hok Ht Hta Hw Hle Hrb)
    as (_ & Hg2 & Hb2 & Hno2).
  destruct (mmap_base_window c2 r1 Hok Ht Hta Hw Hle Hra)
    as (_ & _ & Hb3 & _).
  split; [| split].
  - intros Hlim. pose proof (stack_gap_monotone c1 c2 Hle Hlim) as Hmono.
    rewrite Hb1, Hb2.
    assert (Hx0 : 0 <= TASK_SIZE - stack_gap c1 - r1) by lia.
    assert (Hy0 : 0 <= TASK_SIZE - stack_gap c2 - r2) by lia.
    destruct (PAGE_ALIGN_round_up _ Hok Hx0 Hno1) as [Hr Hal].
    apply (PAGE_ALIGN_le_boundary _ _ Hok Hy0); [lia | | exact Hal].
    apply (PAGE_ALIGN_ulong Hok).
  - intros H1 H2. rewrite Hb1, Hb3. f_equal.
    assert (stack_gap c1 = MIN_GAP).
    { unfold stack_gap. destruct (Z.ltb_spec (rlimit_stack c1) MIN_GAP);
        [reflexivity |]. destruct (Z.gtb_spec (rlimit_stack c1) MAX_GAP); lia. }
    assert (stack_gap c2 = MIN_GAP).
    { unfold stack_gap. destruct (Z.ltb_spec (rlimit_stack c2) MIN_GAP);
        [reflexivity |]. destruct (Z.gtb_spec (rlimit_stack c2) MAX_GAP); lia. }
    lia.
  - intros H1 H2. rewrite Hb1, Hb3. f_equal.
    assert (stack_gap c1 = MAX_GAP).
    { unfold stack_gap. destruct (Z.ltb_spec (rlimit_stack c1) MIN_GAP);
        [lia |]. destruct (Z.gtb_spec (rlimit_stack c1) MAX_GAP); lia. }
    assert (stack_gap c2 = MAX_GAP).
    { unfold stack_gap. destruct (Z.ltb_spec (rlimit_stack c2) MIN_GAP);
        [lia |]. destruct (Z.gtb_spec (rlimit_stack c2) MAX_GAP); lia. }
    lia.
Qed.

(** The task with the large stack limit has its base below that of the task
    with the default limit. *)
Lemma mmap_base_antitone_witness :
  @mmap_base arm task_big_stack 0x45000
  <= @mmap_base arm (task_of mm_topdown) 0.
Proof.
  refine (proj1 (@mmap_base_antitone arm (task_of mm_topdown) task_big_stack
                   0 0x45000 arm_words_ok _ eq_refl eq_refl _ _ _ _) _).
  - vm_compute. split; [discriminate | reflexivity].
  - vm_compute. discriminate.
  - discriminate.
  - discriminate.
  - vm_compute. discriminate.
  - vm_compute. discriminate.
Defined.

(** ** What the top-down function reports *)

(** X15.  Every message [arch_get_unmapped_area_topdown] prints for a
    request without [MAP_FIXED] is either the one of the length test or the
    one after the searches, and the latter always carries the parameters of
    the fall-back search over [[mmap_base, TASK_SIZE)], never those of the
    top-down search: a failure is reported only after both searches
    failed. *)
Theorem topdown_reports_fallback {P : platform} (current : task_struct)
    (ratelimit : bool) (filp : option file) (addr len pgoff flags : Z) :
  words_ok -> 0 < ENOMEM < PAGE_SIZE ->
  Z.land flags MAP_FIXED = 0 ->
  let mm := task_mm current in
  let td := topdown_info mm (do_align_of filp flags) len pgoff in
  let down :=
    arch_get_unmapped_area_topdown current ratelimit filp addr len pgoff flags in
  forall e, In e (printk_log (snd down)) ->
    (e = printk_len 156 current len addr /\ search_log (snd down) = []) \/
    (e = printk_nomem 208 current (fallback_info mm td) /\
     search_log (snd down) = [td; fallback_info mm td] /\
     (forall b, gap_fits mm td b = false) /\
     (forall b, gap_fits mm (fallback_info mm td) b = false)).
Proof.
  intros Hok Hen Hfix mm td down e He. unfold down in *.
  rewrite arch_get_unmapped_area_topdown_eq in *. cbv zeta in *.
  assert (Hf : nonzero (Z.land flags MAP_FIXED) = false)
    by (unfold nonzero; rewrite Hfix; reflexivity).
  rewrite Hf in *. fold mm td in He |- *.
  destruct (len >? sub_ul TASK_SIZE mmap_min_addr).
  { left. destruct ratelimit; simpl in He; [| contradiction].
    destruct He as [<- | []]. split; reflexivity. }
  destruct (nonzero addr
            && hint_ok mm (align_hint (do_align_of filp flags) addr pgoff) len);
    [simpl in He; contradiction |].
  destruct (nonzero (Z.land (vm_unmapped_area mm td) (not_ul PAGE_MASK))) eqn:Hr.
  - right. cbn [snd printk_log filter] in He.
    fold (printk_log (nomem_report ratelimit 208 current
                        (vm_unmapped_area mm (fallback_info mm td))
                        (fallback_info mm td))) in He.
    unfold nomem_report in He |- *.
    apply (search_failed_iff Hok mm td Hen) in Hr.
    destruct (Z.eqb_spec (vm_unmapped_area mm (fallback_info mm td))
                         (neg_ul ENOMEM)) as [E | E];
      [| simpl in He; contradiction].
    destruct ratelimit; simpl in He; [| contradiction].
    destruct He as [<- | []].
    split; [reflexivity |]. split; [reflexivity |].
    split.
    + destruct (vm_unmapped_area_cases Hok mm td) as [Hfit | [_ Hn]];
        [| exact Hn].
      exfalso. apply (gap_fits_iff Hok) in Hfit.
      destruct Hfit as (_ & _ & Hpa & _). rewrite Hr in Hpa.
      exact (neg_errno_not_aligned Hok _ Hen Hpa).
    + destruct (vm_unmapped_area_cases Hok mm (fallback_info mm td))
        as [Hfit | [_ Hn]]; [| exact Hn].
      exfalso. apply (gap_fits_iff Hok) in Hfit.
      destruct Hfit as (_ & _ & Hpa & _). rewrite E in Hpa.
      exact (neg_errno_not_aligned Hok _ Hen Hpa).
  - (* the first search found a page boundary: nothing is reported *)
    exfalso. cbn [snd printk_log filter] in He.
    fold (printk_log (nomem_report ratelimit 208 current
                        (vm_unmapped_area mm td) td)) in He.
    unfold nomem_report in He.
    destruct (Z.eqb_spec (vm_unmapped_area mm td) (neg_ul ENOMEM)) as [E | E];
      [| simpl in He; contradiction].
    apply (search_failed_iff Hok mm td Hen) in E. congruence.
Qed.

(** An address space filled from the first page to [TASK_SIZE]: both
    searches fail and the message is that of the second. *)
Lemma topdown_reports_fallback_witness :
  let full := {| mm_mmap := [ {| vm_start := 0x1000; vm_end := 0xbf000000 |} ];
                 mm_mmap_base := 0x20000;
                 mm_get_unmapped_area := fn_arch_get_unmapped_area_topdown;
                 mm_total_vm := 0xbefff |} in
  search_log
    (snd (@arch_get_unmapped_area_topdown arm (task_of full) true None
            0 0xbe000000 0 0))
  = [@topdown_info arm full false 0xbe000000 0;
     @fallback_info arm full (@topdown_info arm full false 0xbe000000 0)].
Proof.
  intros full.
  destruct (@topdown_reports_fallback arm (task_of full) true None
              0 0xbe000000 0 0 arm_words_ok
              ltac:(vm_compute; split; reflexivity) eq_refl
              (printk_nomem 208 (task_of full)
                 (@fallback_info arm full
                    (@topdown_info arm full false 0xbe000000 0))))
    as [[E _] | (_ & Hlog & _)].
  - vm_compute. left. reflexivity.
  - discriminate E.
  - exact Hlog.
Defined.
